(** * Reconciling a Mixxx library with a music player's database

    A shallow embedding of [fix_with_clementine_db]
    (python_tools/fix_track_paths_utils/clementine_custom_music_db.py) and of
    [confirm_config] (python_tools/utils/misc.py), with the properties the
    specification states about them.

    Conventions of the embedding:
    - a Python [str] is a [string] of bytes (UTF-8); comparing two strings
      byte by byte orders them as Python orders them code point by code point;
    - a table cell holding text is a [Cell]: [None] is pandas' NA;
    - a [DataFrame] is the list of its rows in order, each with its index label;
    - console output, operator input and the written table live in a [World]
      that the program threads through its steps; [sys.exit] and uncaught
      exceptions are outcomes of a step. *)

From Stdlib Require Import List String Ascii ZArith Arith Bool Lia.
From Stdlib Require Import Permutation Sorted DecimalString DecimalNat.
Import ListNotations.

Local Open Scope string_scope.
Local Open Scope list_scope.

Set Implicit Arguments.

(** ** Cells, rows and data frames *)

Definition Cell := option string.

Definition cell_eqb (a b : Cell) : bool :=
  match a, b with
  | Some x, Some y => String.eqb x y
  | None, None => true
  | _, _ => false
  end.

Fixpoint cells_eqb (k1 k2 : list Cell) : bool :=
  match k1, k2 with
  | [], [] => true
  | a :: k1', b :: k2' => cell_eqb a b && cells_eqb k1' k2'
  | _, _ => false
  end.

(** A row of the Mixxx library table: the two keys the program copies into the
    result ([id] and [location]) and the text columns, read by column name. *)
Record MixxxTrack := {
  mx_id : Z;
  mx_location : Z;
  mx_text : string -> Cell
}.

(** A row of the player's [songs] table after [file_path] has been added. *)
Record CustomTrack := {
  file_path : string;
  cu_text : string -> Cell
}.

(** Index labels are integers. *)
Abbreviation Index := Z (only parsing).

Definition DataFrame (R : Type) := list (Index * R).

(** [df.index] *)
Definition index (R : Type) (df : DataFrame R) : list Index := map fst df.

Definition mem_index (i : Index) (labels : list Index) : bool :=
  existsb (Z.eqb i) labels.

(** [df.loc[label]]: the row carrying the label, [None] for pandas' KeyError. *)
Definition loc (R : Type) (df : DataFrame R) (label : Index) : option R :=
  match find (fun e => Z.eqb (fst e) label) df with
  | Some e => Some (snd e)
  | None => None
  end.

(** [df.drop(index=pd.Index(labels))]: every row whose label is listed goes;
    a listed label the frame does not have is a KeyError ([None]). *)
Definition drop (R : Type) (labels : list Index) (df : DataFrame R)
  : option (DataFrame R) :=
  if forallb (fun l => mem_index l (index df)) labels
  then Some (filter (fun e => negb (mem_index (fst e) labels)) df)
  else None.

(** [df[cols] = df[cols].fillna("")] on one row's text columns. *)
Definition fillna_text (cols : list string) (f : string -> Cell) : string -> Cell :=
  fun c =>
    if existsb (String.eqb c) cols
    then match f c with None => Some "" | Some v => Some v end
    else f c.

Definition fillna_mixxx (cols : list string) (r : MixxxTrack) : MixxxTrack :=
  {| mx_id := mx_id r; mx_location := mx_location r;
     mx_text := fillna_text cols (mx_text r) |}.

Definition fillna_custom (cols : list string) (r : CustomTrack) : CustomTrack :=
  {| file_path := file_path r; cu_text := fillna_text cols (cu_text r) |}.

Definition map_rows (R : Type) (f : R -> R) (df : DataFrame R) : DataFrame R :=
  map (fun e => (fst e, f (snd e))) df.

(** ** The perfect match: [pd.merge(left, right, how="inner", on MERGE_COLS)] *)

(** A row of the merged frame keeps every column of both sides, among them
    [saved_index_custom] and [saved_index_mixxx].  The columns read after the
    merge (the two saved indices, the two Mixxx keys and the path) each exist
    on one side only, so pandas does not rename them. *)
Definition MergedRow := ((Index * CustomTrack) * (Index * MixxxTrack))%type.

Definition saved_index_custom (m : MergedRow) : Index := fst (fst m).
Definition saved_index_mixxx (m : MergedRow) : Index := fst (snd m).
Definition merged_custom (m : MergedRow) : CustomTrack := snd (fst m).
Definition merged_mixxx (m : MergedRow) : MixxxTrack := snd (snd m).

Section Merge.

(** [MERGE_COLS] is defined in python_tools/utils/music_db_utils.py. *)
Variable MERGE_COLS : list string.

Definition mixxx_key (r : MixxxTrack) : list Cell := map (mx_text r) MERGE_COLS.
Definition custom_key (r : CustomTrack) : list Cell := map (cu_text r) MERGE_COLS.

(** Inner join on equal key values, in the order of the left rows; equal
    keys on both sides give every combination.  NA keys match NA keys. *)
Definition pd_merge (left : DataFrame CustomTrack) (right : DataFrame MixxxTrack)
  : list MergedRow :=
  flat_map
    (fun l => map (fun r => (l, r))
                  (filter (fun r => cells_eqb (custom_key (snd l)) (mixxx_key (snd r)))
                          right))
    left.

(** Lines 71-86: the perfect matches and the two frames of unmatched rows. *)
Definition perfect_match (df_mixxx : DataFrame MixxxTrack)
                         (df_custom : DataFrame CustomTrack)
  : option (list MergedRow * DataFrame MixxxTrack * DataFrame CustomTrack) :=
  let df_custom_pm := pd_merge df_custom df_mixxx in
  match drop (map saved_index_mixxx df_custom_pm) df_mixxx with
  | None => None
  | Some df_mixxx_nm =>
      match drop (map saved_index_custom df_custom_pm) df_custom with
      | None => None
      | Some df_custom_nm => Some (df_custom_pm, df_mixxx_nm, df_custom_nm)
      end
  end.

End Merge.

(** ** Sorting the unmatched Mixxx rows:
       [df_mixxx_nm.sort_values(by=["artist", "title"])] *)

(** Ascending order of one text column; NA comes last. *)
Definition cell_leb (a b : Cell) : bool :=
  match a, b with
  | Some x, Some y => String.leb x y
  | _, None => true
  | None, Some _ => false
  end.

Definition sort_key (r : MixxxTrack) : Cell * Cell :=
  (mx_text r "artist", mx_text r "title").

(** Order of the pairs: by artist, and by title among equal artists. *)
Definition key_leb (k1 k2 : Cell * Cell) : bool :=
  if cell_eqb (fst k1) (fst k2)
  then cell_leb (snd k1) (snd k2)
  else cell_leb (fst k1) (fst k2).

Definition row_leb (a b : Index * MixxxTrack) : bool :=
  key_leb (sort_key (snd a)) (sort_key (snd b)).

Fixpoint insert_row (x : Index * MixxxTrack) (l : DataFrame MixxxTrack)
  : DataFrame MixxxTrack :=
  match l with
  | [] => [x]
  | y :: l' => if row_leb x y then x :: l else y :: insert_row x l'
  end.

(** With several sort columns pandas sorts stably: rows with equal keys keep
    the order they have in the frame. *)
Fixpoint sort_values (df : DataFrame MixxxTrack) : DataFrame MixxxTrack :=
  match df with
  | [] => []
  | x :: df' => insert_row x (sort_values df')
  end.

(** ** [str] and [int] on list positions *)

(** [str(i)] for a position [i] of [enumerate]. *)
Definition str_of_nat (n : nat) : string :=
  NilEmpty.string_of_uint (Nat.to_uint n).

(** [int(s)] on a string of decimal digits; [None] is ValueError.  The program
    calls [int] on accepted, non-empty answers only, which are of this form. *)
Definition int_of_string (s : string) : option nat :=
  match s with
  | "" => None
  | _ => option_map Nat.of_uint (NilEmpty.uint_of_string s)
  end.

(** ** [pathlib.Path] on a POSIX system *)

Definition slash : ascii := "/"%char.

(** [s.split("/")] *)
Fixpoint split_slash (s : string) : list string :=
  match s with
  | "" => [""]
  | String c s' =>
      if Ascii.eqb c slash then "" :: split_slash s'
      else match split_slash s' with
           | [] => [String c ""]
           | p :: ps => String c p :: ps
           end
  end.

Record PurePath := { root : string; tail : list string }.

Definition is_part (x : string) : bool :=
  negb (String.eqb x "") && negb (String.eqb x ".").

(** [posixpath.splitroot]: one leading slash is the root, exactly two are the
    root "//", three or more collapse to one. *)
Definition splitroot (p : string) : string * string :=
  match p with
  | String c1 r1 =>
      if Ascii.eqb c1 slash then
        match r1 with
        | String c2 r2 =>
            if Ascii.eqb c2 slash then
              match r2 with
              | String c3 _ => if Ascii.eqb c3 slash then ("/", r1) else ("//", r2)
              | "" => ("//", r2)
              end
            else ("/", r1)
        | "" => ("/", r1)
        end
      else ("", p)
  | "" => ("", p)
  end.

(** [Path(s)]: the root and the components that are neither empty nor ".". *)
Definition Path (s : string) : PurePath :=
  let (rt, rel) := splitroot s in
  {| root := rt; tail := filter is_part (split_slash rel) |}.

(** [p.name] *)
Definition name (p : PurePath) : string := last (tail p) "".

(** [p.parent] *)
Definition parent (p : PurePath) : PurePath :=
  match tail p with
  | [] => p
  | _ => {| root := root p; tail := removelast (tail p) |}
  end.

(** [p.as_posix()] *)
Definition as_posix (p : PurePath) : string :=
  match root p, tail p with
  | "", [] => "."
  | rt, parts => (rt ++ String.concat "/" parts)%string
  end.

(** ** Rows of the result *)

(** The three columns of a match: [CUSTOM_DB_LIBRARY_IDX_COLUMN],
    [CUSTOM_DB_LOCATION_IDX_COLUMN] and [CUSTOM_DB_PATH_COLUMN]. *)
Record MatchRow := {
  library_idx : Z;
  location_idx : Z;
  path : string
}.

(** A row of the table handed to [write_df_to_table]: the three columns and
    [CUSTOM_DB_FILENAME_COLUMN], [CUSTOM_DB_DIRECTORY_COLUMN]. *)
Record FinalRow := {
  match_row : MatchRow;
  filename : string;
  directory : string
}.

(** [df_custom_pm[[library, location, path]]] for one merged row *)
Definition project (m : MergedRow) : MatchRow :=
  {| library_idx := mx_id (merged_mixxx m);
     location_idx := mx_location (merged_mixxx m);
     path := file_path (merged_custom m) |}.

(** Lines 161-166 *)
Definition with_file_columns (r : MatchRow) : FinalRow :=
  {| match_row := r;
     filename := name (Path (path r));
     directory := as_posix (parent (Path (path r))) |}.

(** ** Console, operator and the written table *)

Inductive Message :=
| MsgNoMissingTracks                              (* line 28 *)
| MsgWellDoIt                                     (* line 35 *)
| MsgNotFound (n : nat)                           (* lines 90-93 *)
| MsgFinding (idx_mixxx : Index) (entry : list Cell)   (* lines 103-105 *)
| MsgNoSimilar (threshold : nat)                  (* lines 115-118 *)
| MsgCandidate (i : nat) (entry : list Cell)      (* line 123 *)
| MsgTableUsed (table : list FinalRow)            (* lines 175-179 *)
| MsgConfigHeader (module_name : string)          (* misc.py, lines 12-15 *)
| MsgParam (param_name value : string).           (* misc.py, line 17 *)

Inductive Question :=
| AskRefreshed       (* line 33: did you refresh Clementine's library? *)
| AskChoose          (* line 127: choose an index or leave empty to skip *)
| AskSettings.       (* misc.py, line 18: are you OK with these settings? *)

(** What appears on the console.  [MsgFinding] is recorded with the index
    label of the row the loop is handling, so that the console tells which rows
    were evaluated and in which order. *)
Inductive Event :=
| Printed (m : Message)
| Asked (q : Question).

Inductive Exception := EOFError | KeyError | ValueError | IndexError.

Inductive Outcome (A : Type) :=
| Returned (a : A)
| SystemExit (status : Z)
| Raised (e : Exception).

Arguments SystemExit {A} status.
Arguments Raised {A} e.

(** [stdin]: the lines the operator will type; [custom_db]: the table last
    written by [write_df_to_table], if any. *)
Record World := {
  stdin : list string;
  console : list Event;
  custom_db : option (list FinalRow)
}.

Definition IO (A : Type) := World -> Outcome A * World.

Definition ret (A : Type) (a : A) : IO A := fun w => (Returned a, w).

Definition bind (A B : Type) (c : IO A) (k : A -> IO B) : IO B :=
  fun w =>
    match c w with
    | (Returned a, w') => k a w'
    | (SystemExit s, w') => (SystemExit s, w')
    | (Raised e, w') => (Raised e, w')
    end.

Notation "x <- c ;; k" := (bind c (fun x => k))
  (at level 61, c at next level, right associativity).
Notation "c ;;; k" := (bind c (fun _ => k))
  (at level 61, right associativity).

Definition emit (e : Event) (w : World) : World :=
  {| stdin := stdin w; console := console w ++ [e]; custom_db := custom_db w |}.

Definition print (m : Message) : IO unit :=
  fun w => (Returned tt, emit (Printed m) w).

(** [sys.exit()] leaves with status 0, [sys.exit(1)] with status 1. *)
Definition exit (A : Type) (status : Z) : IO A :=
  fun w => (SystemExit status, w).

Definition raise (A : Type) (e : Exception) : IO A :=
  fun w => (Raised e, w).

Definition lift (A : Type) (e : Exception) (o : option A) : IO A :=
  match o with
  | Some a => ret a
  | None => raise A e
  end.

(** [input(prompt)]: shows the prompt and takes the next line; at the end of
    the input Python raises EOFError. *)
Definition input (q : Question) : IO string :=
  fun w =>
    match stdin w with
    | [] => (Raised EOFError, emit (Asked q) w)
    | l :: rest =>
        (Returned l,
         {| stdin := rest; console := console w ++ [Asked q];
            custom_db := custom_db w |})
    end.

(** [write_df_to_table(df, ..., overwrite=True)] *)
Definition write_df_to_table (table : list FinalRow) : IO unit :=
  fun w =>
    (Returned tt,
     {| stdin := stdin w; console := console w; custom_db := Some table |}).

(** ** Choosing among the proposed tracks (lines 120-131) *)

(** [ans_check] after the [enumerate] loop over [n] proposals *)
Definition ans_check (n : nat) : list string :=
  "" :: map str_of_nat (seq 0 n).

(** [ans in ans_check] *)
Definition accepted (n : nat) (ans : string) : bool :=
  existsb (String.eqb ans) (ans_check n).

(** The [while True] loop: every turn is one [input]; the loop is written by
    recursion on the lines still to come. *)
Fixpoint choose_from (n : nat) (pending : list string) (w : World)
  : Outcome string * World :=
  match pending with
  | [] => (Raised EOFError, emit (Asked AskChoose) w)
  | ans :: rest =>
      let w' := {| stdin := rest; console := console w ++ [Asked AskChoose];
                   custom_db := custom_db w |} in
      if accepted n ans then (Returned ans, w') else choose_from n rest w'
  end.

Definition choose (n : nat) : IO string :=
  fun w => choose_from n (stdin w) w.

(** ** The program *)

Section Program.

Variable MERGE_COLS : list string.
Variable THRESHOLD_NAME_SIMILARITY : nat.
Variable N_SIMILAR_TRACK_PROPOSAL : nat.

(** python_tools/utils/track_utils.py; it returns index labels. *)
Variable get_closest_matches_indices :
  MixxxTrack -> DataFrame CustomTrack -> list string -> nat -> nat -> list Index.

Section CloseMatch.

Variable df_custom : DataFrame CustomTrack.
Variable df_mixxx_nm : DataFrame MixxxTrack.
Variable df_custom_nm : DataFrame CustomTrack.

(** Lines 121-124, the printing side *)
Fixpoint print_candidates (i : nat) (close_indices : list Index) : IO unit :=
  match close_indices with
  | [] => ret tt
  | idx :: rest =>
      row <- lift KeyError (loc df_custom idx) ;;
      print (MsgCandidate i (custom_key MERGE_COLS row)) ;;;
      print_candidates (S i) rest
  end.

(** Lines 133-141 *)
Definition record_answer (idx_mixxx : Index) (close_indices : list Index)
           (ans : string) (list_idx_cm : list MatchRow) : IO (list MatchRow) :=
  match ans with
  | "" => ret list_idx_cm
  | _ =>
      i <- lift ValueError (int_of_string ans) ;;
      idx_custom <- lift IndexError (nth_error close_indices i) ;;
      m <- lift KeyError (loc df_mixxx_nm idx_mixxx) ;;
      c <- lift KeyError (loc df_custom_nm idx_custom) ;;
      ret (list_idx_cm ++
           [{| library_idx := mx_id m; location_idx := mx_location m;
               path := file_path c |}])
  end.

(** One turn of the loop of line 100 (lines 103-141) *)
Definition close_match (idx_mixxx : Index) (row : MixxxTrack)
           (list_idx_cm : list MatchRow) : IO (list MatchRow) :=
  print (MsgFinding idx_mixxx (mixxx_key MERGE_COLS row)) ;;;
  let close_indices :=
    get_closest_matches_indices row df_custom_nm MERGE_COLS
      THRESHOLD_NAME_SIMILARITY N_SIMILAR_TRACK_PROPOSAL in
  match close_indices with
  | [] => print (MsgNoSimilar THRESHOLD_NAME_SIMILARITY) ;;; ret list_idx_cm
  | _ =>
      print_candidates 0 close_indices ;;;
      ans <- choose (List.length close_indices) ;;
      record_answer idx_mixxx close_indices ans list_idx_cm
  end.

(** The loop of lines 100-141 over the rows in the order given *)
Fixpoint close_matches (rows : DataFrame MixxxTrack)
         (list_idx_cm : list MatchRow) : IO (list MatchRow) :=
  match rows with
  | [] => ret list_idx_cm
  | (idx_mixxx, row) :: rest =>
      l <- close_match idx_mixxx row list_idx_cm ;;
      close_matches rest l
  end.

End CloseMatch.

(** Lines 88-160: the rows of [df_custom_final], already restricted to the
    three columns kept at lines 154-160 (the close matches have no other). *)
Definition close_stage (df_custom : DataFrame CustomTrack)
           (df_custom_pm : list MergedRow)
           (df_mixxx_nm : DataFrame MixxxTrack)
           (df_custom_nm : DataFrame CustomTrack) : IO (list MatchRow) :=
  match df_mixxx_nm with
  | [] => ret (map project df_custom_pm)
  | _ =>
      print (MsgNotFound (List.length df_mixxx_nm)) ;;;
      let df_mixxx_nm' := map_rows (fillna_mixxx MERGE_COLS) df_mixxx_nm in
      let df_custom_nm' := map_rows (fillna_custom MERGE_COLS) df_custom_nm in
      list_idx_cm <- close_matches df_custom df_mixxx_nm' df_custom_nm'
                       (sort_values df_mixxx_nm') [] ;;
      ret (map project df_custom_pm ++ list_idx_cm)
  end.

(** [fix_with_clementine_db], from the two frames as they are at line 69:
    [df_mixxx] as loaded and normalised, [df_custom] as loaded, filtered and
    normalised. *)
Definition fix_with_clementine_db (df_mixxx : DataFrame MixxxTrack)
           (df_custom : DataFrame CustomTrack) : IO unit :=
  match df_mixxx with
  | [] => print MsgNoMissingTracks ;;; exit unit 0
  | _ =>
      answer <- input AskRefreshed ;;
      if negb (String.eqb answer "y") then print MsgWellDoIt ;;; exit unit 0
      else
        pm <- lift KeyError (perfect_match MERGE_COLS df_mixxx df_custom) ;;
        let '(df_custom_pm, df_mixxx_nm, df_custom_nm) := pm in
        final <- close_stage df_custom df_custom_pm df_mixxx_nm df_custom_nm ;;
        let df_custom_final := map with_file_columns final in
        write_df_to_table df_custom_final ;;;
        print (MsgTableUsed df_custom_final)
  end.

End Program.

(** ** Proposing close matches *)

(** A proposed row of the pool: its index label and its distance to the
    record. *)
Record MatchCandidate := {
  other_index : Index;
  score : nat
}.

(** Ascending distance, and ascending index label among equal distances *)
Definition candidate_leb (a b : MatchCandidate) : bool :=
  (score a <? score b)%nat ||
  ((score a =? score b)%nat && (other_index a <=? other_index b)%Z).

Fixpoint insert_candidate (x : MatchCandidate) (l : list MatchCandidate)
  : list MatchCandidate :=
  match l with
  | [] => [x]
  | y :: l' => if candidate_leb x y then x :: l else y :: insert_candidate x l'
  end.

Fixpoint sort_candidates (l : list MatchCandidate) : list MatchCandidate :=
  match l with
  | [] => []
  | x :: l' => insert_candidate x (sort_candidates l')
  end.

Section Closest.

(** The string distance between the merge-field values of two records; the
    specification leaves the metric to the implementation. *)
Variable distance : list Cell -> list Cell -> nat.

Definition candidate_of (record : MixxxTrack) (merge_fields : list string)
           (e : Index * CustomTrack) : MatchCandidate :=
  {| other_index := fst e;
     score := distance (mixxx_key merge_fields record)
                       (custom_key merge_fields (snd e)) |}.

(** Modelled from the spec: [get_closest_matches_indices] of
    python_tools/utils/track_utils.py is not among the sources.  Section 4.2:
    select the [max_candidates] lowest-distance pool entries strictly below
    [threshold], sorted ascending by distance, ties broken by ascending
    original pool index. *)
Definition propose_candidates (record : MixxxTrack)
           (candidate_pool : DataFrame CustomTrack)
           (merge_fields : list string) (threshold max_candidates : nat)
  : list MatchCandidate :=
  firstn max_candidates
    (sort_candidates
       (filter (fun c => (score c <? threshold)%nat)
               (map (candidate_of record merge_fields) candidate_pool))).

(** Modelled from the spec: the index labels of the proposed candidates, in
    their order. *)
Definition get_closest_matches_indices (record : MixxxTrack)
           (candidate_pool : DataFrame CustomTrack)
           (merge_fields : list string) (threshold max_candidates : nat)
  : list Index :=
  map other_index
      (propose_candidates record candidate_pool merge_fields threshold
                          max_candidates).

End Closest.

(** An edit distance to run the program on examples: the Levenshtein distance,
    summed over the merge fields. *)
Fixpoint lev_step (a : ascii) (t : string) (diag : nat) (above : list nat)
         (left : nat) : list nat :=
  match t, above with
  | String b t', up :: above' =>
      let v := Nat.min (Nat.min (S up) (S left))
                       (diag + if Ascii.eqb a b then 0 else 1) in
      v :: lev_step a t' up above' v
  | _, _ => []
  end.

Definition lev_row (a : ascii) (t : string) (prev : list nat) : list nat :=
  match prev with
  | d :: rest => S d :: lev_step a t d rest (S d)
  | [] => []
  end.

Fixpoint lev_rows (s t : string) (row : list nat) : list nat :=
  match s with
  | "" => row
  | String a s' => lev_rows s' t (lev_row a t row)
  end.

Definition levenshtein (s t : string) : nat :=
  last (lev_rows s t (seq 0 (S (String.length t)))) 0.

Definition cell_text (c : Cell) : string :=
  match c with Some s => s | None => "" end.

Fixpoint edit_distance (k1 k2 : list Cell) : nat :=
  match k1, k2 with
  | a :: k1', b :: k2' =>
      levenshtein (cell_text a) (cell_text b) + edit_distance k1' k2'
  | _, _ => 0
  end.

(** ** [confirm_config] (python_tools/utils/misc.py) *)

(** A float, given by what the shortest-digits conversion yields for it: the
    significant decimal digits and the position of the decimal point
    (the value is 0.d1d2... times 10 to the [decpt]). *)
Inductive PyFloat :=
| FInf (negative : bool)
| FNan
| FFinite (negative : bool) (digits : string) (decpt : Z).

(** The values a configuration module holds.  [VObject] is any other object
    (a module, a function, a class, a path), given by what [str] prints. *)
Inductive PyValue :=
| VNone
| VBool (b : bool)
| VInt (z : Z)
| VFloat (f : PyFloat)
| VStr (s : string)
| VObject (printed : string).

Fixpoint zeros (n : nat) : string :=
  match n with
  | O => ""
  | S n' => String "0"%char (zeros n')
  end.

(** The exponent as C's [%+.02d] prints it *)
Definition exponent_str (e : Z) : string :=
  let d := NilEmpty.string_of_uint (N.to_uint (Z.to_N (Z.abs e))) in
  ((if (e <? 0)%Z then "-" else "+") ++
   (if (Z.abs e <? 10)%Z then "0" ++ d else d))%string.

(** [repr] of a float: exponent form when [decpt <= -4] or [decpt > 16],
    otherwise positional with at least one digit after the point. *)
Definition float_repr (f : PyFloat) : string :=
  match f with
  | FInf false => "inf"
  | FInf true => "-inf"
  | FNan => "nan"
  | FFinite neg digits decpt =>
      let sign := if neg then "-" else "" in
      let n := String.length digits in
      (sign ++
       if ((decpt <=? -4) || (16 <? decpt))%Z then
         match digits with
         | String d "" => String d "" ++ "e" ++ exponent_str (decpt - 1)
         | String d more =>
             String d ("." ++ more) ++ "e" ++ exponent_str (decpt - 1)
         | "" => "e" ++ exponent_str (decpt - 1)
         end
       else if (decpt <=? 0)%Z then
         "0." ++ zeros (Z.to_nat (- decpt)) ++ digits
       else if (Z.of_nat n <=? decpt)%Z then
         digits ++ zeros (Z.to_nat decpt - n) ++ ".0"
       else
         substring 0 (Z.to_nat decpt) digits ++ "." ++
         substring (Z.to_nat decpt) (n - Z.to_nat decpt) digits)%string
  end.

(** [str(value)] *)
Definition py_str (v : PyValue) : string :=
  match v with
  | VNone => "None"
  | VBool true => "True"
  | VBool false => "False"
  | VInt z => NilZero.string_of_int (Z.to_int z)
  | VFloat f => float_repr f
  | VStr s => s
  | VObject printed => printed
  end.

(** [sub in s] *)
Fixpoint contains (sub s : string) : bool :=
  String.prefix sub s ||
  match s with
  | "" => false
  | String _ s' => contains sub s'
  end.

(** [s.startswith(p)] *)
Definition startswith (s p : string) : bool := String.prefix p s.

Definition eligible (i : string * PyValue) : bool :=
  negb (startswith (fst i) "__") && negb (contains "." (py_str (snd i))).

Fixpoint insert_param (x : string * PyValue) (l : list (string * PyValue))
  : list (string * PyValue) :=
  match l with
  | [] => [x]
  | y :: l' =>
      if String.leb (fst x) (fst y) then x :: l else y :: insert_param x l'
  end.

(** [sorted] on (name, value) pairs; the names of a module's members are
    distinct, so the names alone decide the order. *)
Fixpoint sorted (l : list (string * PyValue)) : list (string * PyValue) :=
  match l with
  | [] => []
  | x :: l' => insert_param x (sorted l')
  end.

Fixpoint print_params (params : list (string * PyValue)) : IO unit :=
  match params with
  | [] => ret tt
  | param :: rest =>
      print (MsgParam (fst param) (py_str (snd param))) ;;; print_params rest
  end.

(** [confirm_config(config_module)], from the module's name and
    [getmembers(config_module)]. *)
Definition confirm_config (module_name : string)
           (members : list (string * PyValue)) : IO unit :=
  let params := sorted (filter eligible members) in
  match params with
  | [] => ret tt
  | _ =>
      print (MsgConfigHeader module_name) ;;;
      print_params params ;;;
      answer <- input AskSettings ;;
      if negb (String.eqb answer "y") then exit unit 1 else ret tt
  end.

(** ** Values used in the examples *)

Definition text_of (artist title : string) : string -> Cell :=
  fun c =>
    if String.eqb c "artist" then Some artist
    else if String.eqb c "title" then Some title
    else None.

Definition mixxx_track (i loc_id : Z) (artist title : string) : MixxxTrack :=
  {| mx_id := i; mx_location := loc_id; mx_text := text_of artist title |}.

Definition custom_track (p artist title : string) : CustomTrack :=
  {| file_path := p; cu_text := text_of artist title |}.

Definition artist_title : list string := ["artist"; "title"].

Definition fresh (lines : list string) : World :=
  {| stdin := lines; console := []; custom_db := None |}.

Definition no_proposal (r : MixxxTrack) (pool : DataFrame CustomTrack)
           (cols : list string) (threshold n : nat) : list Index := [].

(** Two records agree on the merge fields when each field holds the same
    value (NA agreeing with NA only). *)
Definition same_merge_fields (cols : list string) (t : MixxxTrack)
           (c : CustomTrack) : Prop :=
  forall col, In col cols -> mx_text t col = cu_text c col.

(** What lines 121-124 print for the proposals [close_indices], numbered
    from [i]; a proposal that is no row of [df_custom] prints nothing here
    (there the program raises KeyError). *)
Fixpoint shown (cols : list string) (df_custom : DataFrame CustomTrack)
         (i : nat) (close_indices : list Index) : list Event :=
  match close_indices with
  | [] => []
  | idx :: rest =>
      match loc df_custom idx with
      | Some row =>
          Printed (MsgCandidate i (custom_key cols row))
            :: shown cols df_custom (S i) rest
      | None => []
      end
  end.

(** The rows the loop has evaluated, as the console tells them *)
Definition evaluated (tr : list Event) : list Index :=
  flat_map (fun e => match e with
                     | Printed (MsgFinding i _) => [i]
                     | _ => []
                     end) tr.

(** The number of times the operator was asked to choose *)
Definition choices_asked (tr : list Event) : nat :=
  List.length (filter (fun e => match e with
                                | Asked AskChoose => true
                                | _ => false
                                end) tr).

(** A step is silent when it announces no row. *)
Definition silent (A : Type) (c : IO A) : Prop :=
  forall w out w', c w = (out, w') ->
                   evaluated (console w') = evaluated (console w).

(** The row a confirmed close match appends for the truth row labelled [i]:
    the keys of that row of [df_mixxx_nm] and the path of a row of
    [df_custom_nm]. *)
Definition fuzzy_row (df_mixxx_nm : DataFrame MixxxTrack)
           (df_custom_nm : DataFrame CustomTrack) (i : Index) (r : MatchRow)
  : Prop :=
  exists m idx_custom c,
    loc df_mixxx_nm i = Some m /\
    loc df_custom_nm idx_custom = Some c /\
    r = {| library_idx := mx_id m; location_idx := mx_location m;
           path := file_path c |}.

(** A result row carries the keys of the truth row labelled [i]. *)
Definition row_of_truth (df_mixxx : DataFrame MixxxTrack) (i : Index)
           (r : FinalRow) : Prop :=
  exists t, loc df_mixxx i = Some t /\
            library_idx (match_row r) = mx_id t /\
            location_idx (match_row r) = mx_location t.

(** The number of other rows that agree with a truth row on all merge fields *)
Definition exact_partners (cols : list string) (df_custom : DataFrame CustomTrack)
           (t : MixxxTrack) : nat :=
  List.length
    (filter (fun e => cells_eqb (custom_key cols (snd e)) (mixxx_key cols t))
            df_custom).

(** The program with the settings of the specification's examples: the merge
    fields artist and title, threshold 3, at most 5 proposals, edit distance. *)
Definition example_run : DataFrame MixxxTrack -> DataFrame CustomTrack -> IO unit :=
  fix_with_clementine_db artist_title 3 5
    (get_closest_matches_indices edit_distance).


(** The order of the proposals: a smaller distance first, and among equal
    distances the smaller index label first. *)
Definition candidate_le (a b : MatchCandidate) : Prop :=
  score a < score b \/ (score a = score b /\ (other_index a <= other_index b)%Z).

(** The lines [confirm_config] prints for its parameters *)
Definition param_lines (params : list (string * PyValue)) : list Event :=
  map (fun param => Printed (MsgParam (fst param) (py_str (snd param)))) params.

(** The collections of the specification's examples *)
Definition one_more_time : MixxxTrack := mixxx_track 1 10 "Daft Punk" "One More Time".
Definition aerodynamic : MixxxTrack := mixxx_track 2 20 "Daft Punk" "Aerodynamic".
Definition aerodynamik : MixxxTrack := mixxx_track 3 30 "Daft Punk" "Aerodynamik".

Definition a_mp3 : CustomTrack := custom_track "/a.mp3" "Daft Punk" "One More Time".
Definition a_copy : CustomTrack := custom_track "/copy/a.mp3" "Daft Punk" "One More Time".
Definition b_mp3 : CustomTrack := custom_track "/b.mp3" "Daft Punk" "Arodynamic".

Definition example_closest :
  MixxxTrack -> DataFrame CustomTrack -> list string -> nat -> nat -> list Index :=
  get_closest_matches_indices edit_distance.

Definition row_a : FinalRow :=
  {| match_row := {| library_idx := 1; location_idx := 10; path := "/a.mp3" |};
     filename := "a.mp3"; directory := "/" |}.

Definition row_a_copy : FinalRow :=
  {| match_row := {| library_idx := 1; location_idx := 10; path := "/copy/a.mp3" |};
     filename := "a.mp3"; directory := "/copy" |}.

(** ** [mixxx_to_rekordbox.py]: colours, ratings, texts and the bar start *)

(** [RATING_MAPING] *)
Definition RATING_MAPING : list (Z * Z) :=
  [(0, 0); (1, 51); (2, 102); (3, 153); (4, 204); (5, 255)]%Z.

(** [RATING_MAPING[rating]]; [None] is KeyError. *)
Definition rating_lookup (rating : Z) : option Z :=
  match find (fun e => Z.eqb (fst e) rating) RATING_MAPING with
  | Some e => Some (snd e)
  | None => None
  end.

(** [REKORDBOX_COLORS], in the order the dictionary is written *)
Definition REKORDBOX_COLORS : list ((Z * Z * Z) * string) :=
  [((255, 0, 0), "0xFF0000");
   ((255, 165, 0), "0xFFA500");
   ((255, 255, 0), "0xFFFF00");
   ((0, 255, 0), "0x00FF00");
   ((37, 253, 233), "0x25FDE9");
   ((0, 0, 255), "0x0000FF");
   ((102, 0, 153), "0x660099");
   ((255, 0, 127), "0xFF007F")]%Z.

(** The value of a colour cell: [None], a float NaN, or a whole number (an
    [int], or a float holding a whole number, which [int] converts to it). *)
Inductive PyNumber :=
| NumNone
| NumNaN
| NumInt (z : Z).

(** Lines 60-62 *)
Definition color_distance (r g b : Z) (rb_rgb : Z * Z * Z) : Z :=
  let '(r', g', b') := rb_rgb in
  ((r - r') ^ 2 + (g - g') ^ 2 + (b - b') ^ 2)%Z.

(** [distance < min_distance], where [min_distance] starts as infinity *)
Definition below (distance : Z) (min_distance : option Z) : bool :=
  match min_distance with
  | None => true
  | Some m => (distance <? m)%Z
  end.

(** The loop of lines 59-65 over the items still to visit *)
Fixpoint closest_of (r g b : Z) (items : list ((Z * Z * Z) * string))
         (min_distance : option Z) (closest_color : option string)
  : option string :=
  match items with
  | [] => closest_color
  | (rb_rgb, rb_hex) :: rest =>
      let distance := color_distance r g b rb_rgb in
      if below distance min_distance
      then closest_of r g b rest (Some distance) (Some rb_hex)
      else closest_of r g b rest min_distance closest_color
  end.

Definition red (rgb_value : Z) : Z := Z.land (Z.shiftr rgb_value 16) 255.
Definition green (rgb_value : Z) : Z := Z.land (Z.shiftr rgb_value 8) 255.
Definition blue (rgb_value : Z) : Z := Z.land rgb_value 255.

(** [rgb_to_rekordbox_color(rgb_value)] *)
Definition rgb_to_rekordbox_color (rgb_value : PyNumber) : option string :=
  match rgb_value with
  | NumNone | NumNaN => None
  | NumInt z =>
      closest_of (red z) (green z) (blue z) REKORDBOX_COLORS None None
  end.

(** Lines 169-173: the [Colour] attribute of a track, from its colour cell
    ([None] when the row has no colour column); [None] when it is not set. *)
Definition colour_attribute (color : option PyNumber) : option string :=
  match color with
  | None => None
  | Some NumNone => None
  | Some v => rgb_to_rekordbox_color v
  end.

(** [s.replace(" ", "")] *)
Fixpoint without_spaces (s : string) : string :=
  match s with
  | "" => ""
  | String c s' =>
      if Ascii.eqb c " "%char then without_spaces s'
      else String c (without_spaces s')
  end.

(** [is_non_empty_string(s)] *)
Definition is_non_empty_string (s : PyValue) : bool :=
  match s with
  | VStr text => negb (String.eqb (without_spaces text) "")
  | _ => false
  end.

(** Lines 108-122 of [mixxx_track_and_cue_rows_to_rekbox_tempo_xml]: where the
    first bar starts.  The seconds are floats computed by [BeatGridInfo] and
    [guess_inizio_sec] of python_tools/utils/track_utils.py; they are kept
    abstract. *)
Section Tempo.

(** Seconds and frame positions, as the absent helpers compute them *)
Variable Seconds : Type.
Variable Position : Type.
Variable beatgrid_start_sec : Seconds.
Variable guess_inizio_sec : Position -> Seconds.

(** A hot cue of the track: its number and its position *)
Definition CueRow := (Z * Position)%type.

(** [cue_rows[index - 1 == cue_rows["hotcue"]]] *)
Definition cues_numbered (n : Z) (cue_rows : list CueRow) : list CueRow :=
  filter (fun cue => Z.eqb n (fst cue)) cue_rows.

(** [inizio]; [None] is the AssertionError of line 116. *)
Definition inizio (index_cue_bar_start : Z) (cue_rows : list CueRow)
  : option Seconds :=
  if (index_cue_bar_start <=? 0)%Z
     || negb (existsb (Z.eqb (index_cue_bar_start - 1)) (map fst cue_rows))
  then Some beatgrid_start_sec
  else
    match cues_numbered (index_cue_bar_start - 1) cue_rows with
    | [cue_point] => Some (guess_inizio_sec (snd cue_point))
    | _ => None
    end.

End Tempo.

(** ** Steps that leave a part of the world alone *)

(** A step preserves an observation [f] of the world when the observation is
    the same after the step, whatever the outcome. *)
Definition preserves (X A : Type) (f : World -> X) (c : IO A) : Prop :=
  forall w out w', c w = (out, w') -> f w' = f w.

(** What the loop prints for a row that gets no proposal (lines 103-118) *)
Definition skipped_lines (cols : list string) (threshold : nat)
           (rows : DataFrame MixxxTrack) : list Event :=
  flat_map (fun e => [Printed (MsgFinding (fst e) (mixxx_key cols (snd e)));
                      Printed (MsgNoSimilar threshold)]) rows.

(** The order [sorted] puts the parameters in *)
Definition name_le (a b : string * PyValue) : Prop :=
  String.leb (fst a) (fst b) = true.

(** [l] is a subsequence of [l']: [l'] with some elements left out, the
    others in their order. *)
Inductive Subsequence (A : Type) : list A -> list A -> Prop :=
| Subsequence_nil : Subsequence [] []
| Subsequence_take : forall x l l',
    Subsequence l l' -> Subsequence (x :: l) (x :: l')
| Subsequence_skip : forall x l l',
    Subsequence l l' -> Subsequence l (x :: l').

(** The row recorded for the evaluated row [e] of the loop (lines 133-141):
    some position [k] of the proposals made for [e] holds the label
    [idx_custom]; the keys are those of the row of [df_mixxx_nm] labelled as
    [e], the path that of the row of [df_custom_nm] labelled [idx_custom]. *)
Definition chosen_row (cols : list string) (threshold n : nat)
           (closest : MixxxTrack -> DataFrame CustomTrack -> list string ->
                      nat -> nat -> list Index)
           (df_mixxx_nm : DataFrame MixxxTrack)
           (df_custom_nm : DataFrame CustomTrack)
           (e : Index * MixxxTrack) (r : MatchRow) : Prop :=
  exists k idx_custom m c,
    nth_error (closest (snd e) df_custom_nm cols threshold n) k
      = Some idx_custom /\
    loc df_mixxx_nm (fst e) = Some m /\
    loc df_custom_nm idx_custom = Some c /\
    r = {| library_idx := mx_id m; location_idx := mx_location m;
           path := file_path c |}.

(** * Properties *)

Unset Implicit Arguments.

(** ** Cells and keys *)

Lemma cell_eqb_eq (a b : Cell) : cell_eqb a b = true <-> a = b.
Proof.
  destruct a as [x|], b as [y|]; simpl; try (split; congruence).
  rewrite String.eqb_eq. split; congruence.
Qed.

Lemma cells_eqb_eq (k1 k2 : list Cell) : cells_eqb k1 k2 = true <-> k1 = k2.
Proof.
  revert k2. induction k1 as [|a k1 IH]; intros [|b k2]; simpl;
    try (split; congruence).
  rewrite andb_true_iff, cell_eqb_eq, IH. split.
  - intros [-> ->]. reflexivity.
  - intros E. inversion E. auto.
Qed.

Lemma mem_index_In (i : Index) (labels : list Index) :
  mem_index i labels = true <-> In i labels.
Proof.
  unfold mem_index. rewrite existsb_exists. split.
  - intros [x [Hx E]]. apply Z.eqb_eq in E. subst. exact Hx.
  - intros H. exists i. split; [exact H | apply Z.eqb_refl].
Qed.

Lemma same_merge_fields_key (cols : list string) t c :
  same_merge_fields cols t c <-> custom_key cols c = mixxx_key cols t.
Proof.
  unfold same_merge_fields, custom_key, mixxx_key.
  induction cols as [|col cols IH]; simpl.
  - split; [reflexivity | intros _ col []].
  - split.
    + intros H. f_equal.
      * symmetry. apply H. left. reflexivity.
      * apply IH. intros x Hx. apply H. right. exact Hx.
    + intros E x [<- | Hx]; inversion E; auto.
      apply IH; assumption.
Qed.

(** ** The inner join and the two drops *)

Lemma in_pd_merge (cols : list string) left right (m : MergedRow) :
  In m (pd_merge cols left right) <->
  In (fst m) left /\ In (snd m) right /\
  custom_key cols (merged_custom m) = mixxx_key cols (merged_mixxx m).
Proof.
  unfold pd_merge, merged_custom, merged_mixxx. rewrite in_flat_map. split.
  - intros [l [Hl Hm]]. apply in_map_iff in Hm. destruct Hm as [r [<- Hr]].
    apply filter_In in Hr. destruct Hr as [Hr E]. apply cells_eqb_eq in E.
    simpl. auto.
  - intros [Hl [Hr E]]. destruct m as [l r]. simpl in *. exists l.
    split; [exact Hl|]. apply in_map. apply filter_In. split; [exact Hr|].
    apply cells_eqb_eq. exact E.
Qed.

Lemma drop_own (R : Type) (labels : list Index) (df : DataFrame R) :
  incl labels (index df) ->
  drop labels df = Some (filter (fun e => negb (mem_index (fst e) labels)) df).
Proof.
  intros H. unfold drop.
  replace (forallb (fun l => mem_index l (index df)) labels) with true;
    [reflexivity|].
  symmetry. apply forallb_forall. intros x Hx. apply mem_index_In. auto.
Qed.

Lemma in_drop (R : Type) (labels : list Index) (df nm : DataFrame R) e :
  drop labels df = Some nm ->
  (In e nm <-> In e df /\ ~ In (fst e) labels).
Proof.
  unfold drop. destruct (forallb _ labels); [|discriminate].
  intros [= <-]. rewrite filter_In, negb_true_iff.
  rewrite <- not_true_iff_false, mem_index_In. reflexivity.
Qed.

(** The two drops of lines 85-86 never raise: the labels they are given are
    labels of the frame they are applied to. *)
Lemma perfect_match_defined (cols : list string) df_mixxx df_custom :
  perfect_match cols df_mixxx df_custom =
  Some (pd_merge cols df_custom df_mixxx,
        filter (fun e => negb (mem_index (fst e)
                  (map saved_index_mixxx (pd_merge cols df_custom df_mixxx))))
               df_mixxx,
        filter (fun e => negb (mem_index (fst e)
                  (map saved_index_custom (pd_merge cols df_custom df_mixxx))))
               df_custom).
Proof.
  unfold perfect_match.
  rewrite drop_own, drop_own; [reflexivity| |];
    intros i Hi; apply in_map_iff in Hi; destruct Hi as [m [<- Hm]];
    apply in_pd_merge in Hm; destruct Hm as [Hl [Hr _]];
    unfold index, saved_index_custom, saved_index_mixxx; apply in_map;
    assumption.
Qed.

Lemma perfect_match_inv (cols : list string) df_mixxx df_custom pm nm_m nm_c :
  perfect_match cols df_mixxx df_custom = Some (pm, nm_m, nm_c) ->
  pm = pd_merge cols df_custom df_mixxx /\
  drop (map saved_index_mixxx pm) df_mixxx = Some nm_m /\
  drop (map saved_index_custom pm) df_custom = Some nm_c.
Proof.
  unfold perfect_match.
  destruct (drop _ df_mixxx) as [a|] eqn:Ea; [|discriminate].
  destruct (drop _ df_custom) as [b|] eqn:Eb; [|discriminate].
  intros [= <- <- <-]. auto.
Qed.

Lemma unmatched_mixxx (cols : list string) df_mixxx df_custom pm nm_m nm_c i t :
  perfect_match cols df_mixxx df_custom = Some (pm, nm_m, nm_c) ->
  In (i, t) nm_m ->
  In (i, t) df_mixxx /\
  forall j c, In (j, c) df_custom -> ~ same_merge_fields cols t c.
Proof.
  intros H Hin. apply perfect_match_inv in H. destruct H as [-> [Hm _]].
  apply (in_drop _ _ _ _ (i, t) Hm) in Hin. destruct Hin as [Hin Hno].
  split; [exact Hin|]. intros j c Hc Hs. apply Hno. simpl.
  apply in_map_iff. exists ((j, c), (i, t)). split; [reflexivity|].
  apply in_pd_merge. simpl. repeat split; try assumption.
  apply same_merge_fields_key. exact Hs.
Qed.

Lemma unmatched_custom (cols : list string) df_mixxx df_custom pm nm_m nm_c j c :
  perfect_match cols df_mixxx df_custom = Some (pm, nm_m, nm_c) ->
  In (j, c) nm_c ->
  In (j, c) df_custom /\
  forall i t, In (i, t) df_mixxx -> ~ same_merge_fields cols t c.
Proof.
  intros H Hin. apply perfect_match_inv in H. destruct H as [-> [_ Hc]].
  apply (in_drop _ _ _ _ (j, c) Hc) in Hin. destruct Hin as [Hin Hno].
  split; [exact Hin|]. intros i t Ht Hs. apply Hno. simpl.
  apply in_map_iff. exists ((j, c), (i, t)). split; [reflexivity|].
  apply in_pd_merge. simpl. repeat split; try assumption.
  apply same_merge_fields_key. exact Hs.
Qed.

(** C2.  Exact-match completeness.  For all truth ([df_mixxx]) and other
    ([df_custom]) collections the exact-match stage yields its three results;
    every matched pair joins a row of each collection that agree on all merge
    fields; every row of the truth residual is a truth row that agrees with no
    row of the other collection on all merge fields, and every row of the other
    residual is an other row that agrees with no truth row. *)
Theorem exact_match_completeness (MERGE_COLS : list string)
        (df_mixxx : DataFrame MixxxTrack) (df_custom : DataFrame CustomTrack) :
  exists df_custom_pm df_mixxx_nm df_custom_nm,
    perfect_match MERGE_COLS df_mixxx df_custom
      = Some (df_custom_pm, df_mixxx_nm, df_custom_nm) /\
    (forall m, In m df_custom_pm ->
       In (fst m) df_custom /\ In (snd m) df_mixxx /\
       same_merge_fields MERGE_COLS (merged_mixxx m) (merged_custom m)) /\
    (forall i t, In (i, t) df_mixxx_nm ->
       In (i, t) df_mixxx /\
       forall j c, In (j, c) df_custom -> ~ same_merge_fields MERGE_COLS t c) /\
    (forall j c, In (j, c) df_custom_nm ->
       In (j, c) df_custom /\
       forall i t, In (i, t) df_mixxx -> ~ same_merge_fields MERGE_COLS t c).
Proof.
  pose proof (perfect_match_defined MERGE_COLS df_mixxx df_custom) as E.
  eexists _, _, _. split; [exact E|]. split; [|split].
  - intros m Hm. apply in_pd_merge in Hm. destruct Hm as [Hl [Hr K]].
    repeat split; try assumption. apply same_merge_fields_key. exact K.
  - intros i t Hin. exact (unmatched_mixxx _ _ _ _ _ _ _ _ E Hin).
  - intros j c Hin. exact (unmatched_custom _ _ _ _ _ _ _ _ E Hin).
Qed.

(** ** The residuals split the index *)

Lemma NoDup_index_filter (R : Type) (p : Index * R -> bool) (df : DataFrame R) :
  NoDup (index df) -> NoDup (index (filter p df)).
Proof.
  unfold index. induction df as [|e df IH]; simpl; intros H; [constructor|].
  inversion H as [|x l Hx Hl]; subst.
  destruct (p e); simpl; [constructor|]; auto.
  intros Hin. apply Hx. apply in_map_iff in Hin. destruct Hin as [y [E Hy]].
  apply filter_In in Hy. rewrite <- E. apply in_map. apply Hy.
Qed.

Lemma drop_splits_index (R : Type) (labels : list Index) (df nm : DataFrame R) :
  NoDup (index df) ->
  drop labels df = Some nm ->
  Permutation (index df) (index nm ++ nodup Z.eq_dec labels).
Proof.
  intros Hnd Hd.
  assert (Hincl : incl labels (index df)).
  { unfold drop in Hd.
    destruct (forallb _ labels) eqn:F; [|discriminate].
    intros x Hx. apply mem_index_In.
    exact (proj1 (forallb_forall _ _) F x Hx). }
  assert (Hmem : forall i, In i (index nm) <-> In i (index df) /\ ~ In i labels).
  { intros i. unfold index. rewrite !in_map_iff. split.
    - intros [e [<- He]]. apply (in_drop _ _ _ _ e Hd) in He.
      destruct He as [He Hn]. split; [exists e; auto | exact Hn].
    - intros [[e [<- He]] Hn]. exists e. split; [reflexivity|].
      apply (in_drop _ _ _ _ e Hd). auto. }
  apply NoDup_Permutation.
  - exact Hnd.
  - apply NoDup_app.
    + unfold drop in Hd. destruct (forallb _ labels); [|discriminate].
      injection Hd as <-. apply NoDup_index_filter. exact Hnd.
    + apply NoDup_nodup.
    + intros a Ha Hb. apply nodup_In in Hb. apply Hmem in Ha. tauto.
  - intros x. rewrite in_app_iff, nodup_In, Hmem. split.
    + intros Hx. destruct (in_dec Z.eq_dec x labels); auto.
    + intros [[Hx _] | Hx]; auto.
Qed.

(** C3.  Residual partition.  When the index labels of a collection are
    distinct, the labels of its residual followed by the labels that occur on
    its side of the matched pairs (each taken once, however many pairs it
    occurs in) are a rearrangement of the collection's index: no label is
    lost and none comes twice.  This holds for the truth collection and for
    the other collection. *)
Theorem residual_partition (MERGE_COLS : list string)
        (df_mixxx : DataFrame MixxxTrack) (df_custom : DataFrame CustomTrack) :
  NoDup (index df_mixxx) ->
  NoDup (index df_custom) ->
  exists df_custom_pm df_mixxx_nm df_custom_nm,
    perfect_match MERGE_COLS df_mixxx df_custom
      = Some (df_custom_pm, df_mixxx_nm, df_custom_nm) /\
    Permutation (index df_mixxx)
      (index df_mixxx_nm ++ nodup Z.eq_dec (map saved_index_mixxx df_custom_pm)) /\
    Permutation (index df_custom)
      (index df_custom_nm ++ nodup Z.eq_dec (map saved_index_custom df_custom_pm)).
Proof.
  intros Hm Hc.
  destruct (perfect_match MERGE_COLS df_mixxx df_custom)
    as [[[pm nm_m] nm_c]|] eqn:E;
    [|rewrite perfect_match_defined in E; discriminate].
  exists pm, nm_m, nm_c. split; [reflexivity|].
  apply perfect_match_inv in E. destruct E as [_ [Dm Dc]].
  split; eapply drop_splits_index; eassumption.
Qed.

(** ** Steps of the program *)

Lemma bind_Returned (A B : Type) (c : IO A) (k : A -> IO B) w b w' :
  bind c k w = (Returned b, w') ->
  exists a w1, c w = (Returned a, w1) /\ k a w1 = (Returned b, w').
Proof.
  unfold bind. destruct (c w) as [[a|s|e] w1]; intros H; try discriminate.
  exists a, w1. auto.
Qed.

Lemma lift_Returned (A : Type) (e : Exception) (o : option A) w a w' :
  lift e o w = (Returned a, w') -> o = Some a /\ w' = w.
Proof.
  destruct o as [x|]; simpl; unfold ret, raise; intros [= <- <-]; auto.
Qed.

Lemma emit_console (e : Event) (w : World) :
  console (emit e w) = console w ++ [e].
Proof. reflexivity. Qed.

Lemma bind_ret (A B : Type) (a : A) (k : A -> IO B) w :
  bind (ret a) k w = k a w.
Proof. reflexivity. Qed.

Lemma bind_print (B : Type) (m : Message) (k : unit -> IO B) w :
  bind (print m) k w = k tt (emit (Printed m) w).
Proof. reflexivity. Qed.

Lemma bind_lift_Some (A B : Type) (e : Exception) (a : A) (k : A -> IO B) w :
  bind (lift e (Some a)) k w = k a w.
Proof. reflexivity. Qed.

Lemma bind_intro (A B : Type) (c : IO A) (k : A -> IO B) w a w1 r :
  c w = (Returned a, w1) -> k a w1 = r -> bind c k w = r.
Proof. intros Hc Hk. unfold bind. rewrite Hc. exact Hk. Qed.

Lemma bind_lift_None (A B : Type) (e : Exception) (k : A -> IO B) w :
  bind (lift e None) k w = (Raised e, w).
Proof. reflexivity. Qed.

Ltac io_steps :=
  repeat (first [rewrite bind_print | rewrite bind_ret | rewrite bind_lift_Some
                | rewrite bind_lift_None];
          cbv beta).

(** ** Accepted answers *)

Lemma str_of_nat_not_empty (n : nat) : str_of_nat n <> "".
Proof.
  unfold str_of_nat. intros E.
  pose proof (NilEmpty.usu (Nat.to_uint n)) as U. rewrite E in U.
  simpl in U. injection U as U.
  pose proof (Unsigned.of_to n) as O. rewrite <- U in O. simpl in O.
  subst n. discriminate U.
Qed.

Lemma int_of_str (n : nat) : int_of_string (str_of_nat n) = Some n.
Proof.
  unfold int_of_string. pose proof (str_of_nat_not_empty n) as NE.
  destruct (str_of_nat n) eqn:E; [congruence|]. rewrite <- E.
  unfold str_of_nat. rewrite NilEmpty.usu. simpl.
  rewrite Unsigned.of_to. reflexivity.
Qed.

Lemma accepted_iff (n : nat) (ans : string) :
  accepted n ans = true <->
  ans = "" \/ exists i, i < n /\ ans = str_of_nat i.
Proof.
  unfold accepted, ans_check. rewrite existsb_exists. split.
  - intros [x [[<- | Hx] E]]; apply String.eqb_eq in E; [left; exact E|].
    right. apply in_map_iff in Hx. destruct Hx as [i [<- Hi]].
    apply in_seq in Hi. exists i. split; [lia | exact E].
  - intros [-> | [i [Hi ->]]].
    + exists "". split; [left; reflexivity | reflexivity].
    + exists (str_of_nat i). split; [|apply String.eqb_refl].
      right. apply in_map. apply in_seq. lia.
Qed.

Lemma choose_from_rejects (n : nat) (rejected : list string) ans rest w :
  Forall (fun a => accepted n a = false) rejected ->
  accepted n ans = true ->
  choose_from n (rejected ++ ans :: rest) w =
  (Returned ans,
   {| stdin := rest;
      console := console w ++ repeat (Asked AskChoose) (S (List.length rejected));
      custom_db := custom_db w |}).
Proof.
  intros Hr Ha. revert w. induction Hr as [|a l Hrej _ IH]; intros w; simpl.
  - rewrite Ha. reflexivity.
  - rewrite Hrej, IH. simpl. rewrite <- app_assoc. reflexivity.
Qed.

Lemma print_candidates_shown (cols : list string) df_custom close_indices :
  Forall (fun idx => loc df_custom idx <> None) close_indices ->
  forall i w,
    print_candidates cols df_custom i close_indices w =
    (Returned tt,
     {| stdin := stdin w;
        console := console w ++ shown cols df_custom i close_indices;
        custom_db := custom_db w |}).
Proof.
  induction 1 as [|idx l Hidx _ IH]; intros i w; simpl.
  - unfold ret. rewrite app_nil_r. destruct w; reflexivity.
  - destruct (loc df_custom idx) as [row|] eqn:E; [|congruence].
    io_steps. rewrite IH. simpl. rewrite <- app_assoc. reflexivity.
Qed.

Lemma close_match_proposals (cols : list string) (threshold n : nat)
      (closest : MixxxTrack -> DataFrame CustomTrack -> list string ->
                 nat -> nat -> list Index)
      df_custom df_mixxx_nm df_custom_nm idx_mixxx row list_idx_cm
      (close_indices : list Index) :
  closest row df_custom_nm cols threshold n = close_indices ->
  close_indices <> [] ->
  close_match cols threshold n closest df_custom df_mixxx_nm df_custom_nm
              idx_mixxx row list_idx_cm =
  (print (MsgFinding idx_mixxx (mixxx_key cols row)) ;;;
   print_candidates cols df_custom 0 close_indices ;;;
   ans <- choose (List.length close_indices) ;;
   record_answer df_mixxx_nm df_custom_nm idx_mixxx close_indices ans
                 list_idx_cm).
Proof.
  intros E Hne. unfold close_match. rewrite E.
  destruct close_indices; [congruence | reflexivity].
Qed.

Lemma close_match_answered (cols : list string) (threshold n : nat)
      (closest : MixxxTrack -> DataFrame CustomTrack -> list string ->
                 nat -> nat -> list Index)
      df_custom df_mixxx_nm df_custom_nm idx_mixxx row list_idx_cm
      (close_indices : list Index) w rejected ans rest :
  closest row df_custom_nm cols threshold n = close_indices ->
  close_indices <> [] ->
  Forall (fun idx => loc df_custom idx <> None) close_indices ->
  stdin w = rejected ++ ans :: rest ->
  Forall (fun a => accepted (List.length close_indices) a = false) rejected ->
  accepted (List.length close_indices) ans = true ->
  close_match cols threshold n closest df_custom df_mixxx_nm df_custom_nm
              idx_mixxx row list_idx_cm w =
  record_answer df_mixxx_nm df_custom_nm idx_mixxx close_indices ans list_idx_cm
    {| stdin := rest;
       console := console w
                    ++ Printed (MsgFinding idx_mixxx (mixxx_key cols row))
                    :: shown cols df_custom 0 close_indices
                    ++ repeat (Asked AskChoose) (S (List.length rejected));
       custom_db := custom_db w |}.
Proof.
  intros E Hne Hshown Hin Hrej Hacc.
  rewrite (close_match_proposals cols threshold n closest df_custom df_mixxx_nm
             df_custom_nm idx_mixxx row list_idx_cm close_indices E Hne).
  io_steps. unfold bind at 1.
  rewrite print_candidates_shown by exact Hshown.
  unfold bind at 1. unfold choose. simpl stdin. rewrite Hin.
  rewrite choose_from_rejects by assumption.
  simpl. rewrite <- !app_assoc. reflexivity.
Qed.

Lemma record_answer_index df_mixxx_nm df_custom_nm idx_mixxx close_indices
      list_idx_cm w i idx_custom m c :
  nth_error close_indices i = Some idx_custom ->
  loc df_mixxx_nm idx_mixxx = Some m ->
  loc df_custom_nm idx_custom = Some c ->
  record_answer df_mixxx_nm df_custom_nm idx_mixxx close_indices (str_of_nat i)
                list_idx_cm w =
  (Returned (list_idx_cm ++
             [{| library_idx := mx_id m; location_idx := mx_location m;
                 path := file_path c |}]), w).
Proof.
  intros Hnth Hm Hc. unfold record_answer.
  pose proof (str_of_nat_not_empty i) as NE.
  destruct (str_of_nat i) eqn:Es; [congruence|]. rewrite <- Es.
  rewrite int_of_str. io_steps. rewrite Hnth. io_steps.
  rewrite Hm. io_steps. rewrite Hc. io_steps. reflexivity.
Qed.

Section Disambiguation.

Variable MERGE_COLS : list string.
Variable THRESHOLD_NAME_SIMILARITY : nat.
Variable N_SIMILAR_TRACK_PROPOSAL : nat.
Variable closest :
  MixxxTrack -> DataFrame CustomTrack -> list string -> nat -> nat -> list Index.
Variable df_custom : DataFrame CustomTrack.
Variable df_mixxx_nm : DataFrame MixxxTrack.
Variable df_custom_nm : DataFrame CustomTrack.

Let turn :=
  close_match MERGE_COLS THRESHOLD_NAME_SIMILARITY N_SIMILAR_TRACK_PROPOSAL
              closest df_custom df_mixxx_nm df_custom_nm.

(** C5.  Disambiguation of a truth record with [n >= 1] proposals, all of
    them rows of the player's table.  The accepted answers are exactly the
    empty string and the decimal strings of 0 .. n-1.  Answers that are not
    accepted only cause the question to be asked again: after [k] rejected
    answers and one accepted answer the turn has returned normally, having
    asked [k + 1] times.  The empty answer leaves the list of matches as it
    was; the answer [str i] appends exactly one row, made of the truth
    record's two keys and the path of the proposal at position [i]. *)
Theorem disambiguation_contract (idx_mixxx : Index) (row : MixxxTrack)
        (list_idx_cm : list MatchRow) :
  let close_indices :=
    closest row df_custom_nm MERGE_COLS THRESHOLD_NAME_SIMILARITY
            N_SIMILAR_TRACK_PROPOSAL in
  let n := List.length close_indices in
  1 <= n ->
  Forall (fun idx => loc df_custom idx <> None) close_indices ->
  (forall ans, accepted n ans = true <->
               ans = "" \/ exists i, i < n /\ ans = str_of_nat i) /\
  (forall w rejected ans rest,
      stdin w = rejected ++ ans :: rest ->
      Forall (fun a => accepted n a = false) rejected ->
      accepted n ans = true ->
      exists w',
        stdin w' = rest /\
        custom_db w' = custom_db w /\
        console w' =
          console w
            ++ Printed (MsgFinding idx_mixxx (mixxx_key MERGE_COLS row))
            :: shown MERGE_COLS df_custom 0 close_indices
            ++ repeat (Asked AskChoose) (S (List.length rejected)) /\
        (ans = "" -> turn idx_mixxx row list_idx_cm w = (Returned list_idx_cm, w')) /\
        (forall i idx_custom m c,
            ans = str_of_nat i ->
            nth_error close_indices i = Some idx_custom ->
            loc df_mixxx_nm idx_mixxx = Some m ->
            loc df_custom_nm idx_custom = Some c ->
            turn idx_mixxx row list_idx_cm w =
            (Returned (list_idx_cm ++
                       [{| library_idx := mx_id m;
                           location_idx := mx_location m;
                           path := file_path c |}]), w'))).
Proof.
  intros close_indices n Hn Hshown. split; [apply accepted_iff|].
  intros w rejected ans rest Hin Hrej Hacc.
  assert (Hne : close_indices <> []).
  { intros E. subst n. rewrite E in Hn. simpl in Hn. lia. }
  pose proof (close_match_answered MERGE_COLS THRESHOLD_NAME_SIMILARITY
                N_SIMILAR_TRACK_PROPOSAL closest df_custom df_mixxx_nm
                df_custom_nm idx_mixxx row list_idx_cm close_indices
                w rejected ans rest eq_refl Hne Hshown Hin Hrej Hacc) as Hturn.
  fold turn in Hturn.
  eexists. split; [|split; [|split; [|split]]].
  4:{ intros ->. rewrite Hturn. reflexivity. }
  4:{ intros i idx_custom m c -> Hnth Hm Hc. rewrite Hturn.
      apply (record_answer_index _ _ _ _ _ _ _ idx_custom); assumption. }
  - reflexivity.
  - reflexivity.
  - reflexivity.
Qed.

End Disambiguation.

(** ** The order of [sort_values] *)

Lemma string_leb_refl (s : string) : String.leb s s = true.
Proof.
  destruct (String.leb_total s s); assumption.
Qed.

Lemma string_leb_trans (s1 s2 s3 : string) :
  String.leb s1 s2 = true -> String.leb s2 s3 = true -> String.leb s1 s3 = true.
Proof.
  unfold String.leb. revert s2 s3.
  induction s1 as [|a s1 IH]; intros [|b s2] [|c s3]; simpl; try easy.
  unfold Ascii.compare.
  destruct (N.compare_spec (N_of_ascii a) (N_of_ascii b)) as [E1|L1|G1];
    destruct (N.compare_spec (N_of_ascii b) (N_of_ascii c)) as [E2|L2|G2];
    destruct (N.compare_spec (N_of_ascii a) (N_of_ascii c)) as [E3|L3|G3];
    try easy; try lia.
  apply IH.
Qed.

Lemma cell_leb_total (a b : Cell) : cell_leb a b = false -> cell_leb b a = true.
Proof.
  destruct a as [x|], b as [y|]; simpl; try easy.
  intros H. destruct (String.leb_total x y); congruence.
Qed.

Lemma cell_leb_refl (a : Cell) : cell_leb a a = true.
Proof. destruct a; simpl; [apply string_leb_refl | reflexivity]. Qed.

Lemma cell_leb_trans (a b c : Cell) :
  cell_leb a b = true -> cell_leb b c = true -> cell_leb a c = true.
Proof.
  destruct a, b, c; simpl; try easy. apply string_leb_trans.
Qed.

Lemma cell_leb_antisym (a b : Cell) :
  cell_leb a b = true -> cell_leb b a = true -> a = b.
Proof.
  destruct a, b; simpl; try easy.
  intros H1 H2. f_equal. apply String.leb_antisym; assumption.
Qed.

Lemma cell_eqb_refl (a : Cell) : cell_eqb a a = true.
Proof. apply cell_eqb_eq. reflexivity. Qed.

Lemma cell_eqb_neq (a b : Cell) : cell_eqb a b = false <-> a <> b.
Proof.
  rewrite <- cell_eqb_eq. destruct (cell_eqb a b); split; congruence.
Qed.

(** [key_leb] is the lexicographic order: the artists differ and are in order,
    or they are equal and the titles are in order. *)
Lemma key_leb_lex (k1 k2 : Cell * Cell) :
  key_leb k1 k2 = true <->
  (fst k1 <> fst k2 /\ cell_leb (fst k1) (fst k2) = true) \/
  (fst k1 = fst k2 /\ cell_leb (snd k1) (snd k2) = true).
Proof.
  unfold key_leb. destruct (cell_eqb (fst k1) (fst k2)) eqn:E.
  - apply cell_eqb_eq in E. split; [auto | intros [[N _] | [_ H]]; tauto].
  - apply cell_eqb_neq in E. split; [auto | intros [[_ H] | [N _]]; tauto].
Qed.

Lemma key_leb_total (k1 k2 : Cell * Cell) :
  key_leb k1 k2 = false -> key_leb k2 k1 = true.
Proof.
  unfold key_leb. destruct (cell_eqb (fst k1) (fst k2)) eqn:E.
  - apply cell_eqb_eq in E. rewrite E, cell_eqb_refl. apply cell_leb_total.
  - replace (cell_eqb (fst k2) (fst k1)) with false.
    + apply cell_leb_total.
    + symmetry. apply cell_eqb_neq. apply cell_eqb_neq in E. congruence.
Qed.

Lemma key_leb_trans (k1 k2 k3 : Cell * Cell) :
  key_leb k1 k2 = true -> key_leb k2 k3 = true -> key_leb k1 k3 = true.
Proof.
  rewrite !key_leb_lex.
  intros [[N1 L1] | [E1 L1]] [[N2 L2] | [E2 L2]].
  - left. split; [|eapply cell_leb_trans; eassumption].
    intros E. rewrite E in L1, N1. apply N1.
    symmetry. apply cell_leb_antisym; assumption.
  - left. rewrite <- E2. auto.
  - left. rewrite E1. auto.
  - right. split; [congruence | eapply cell_leb_trans; eassumption].
Qed.

Lemma insert_row_perm x l : Permutation (insert_row x l) (x :: l).
Proof.
  induction l as [|y l IH]; simpl; [reflexivity|].
  destruct (row_leb x y); [reflexivity|].
  rewrite IH. apply perm_swap.
Qed.

Lemma sort_values_perm df : Permutation (sort_values df) df.
Proof.
  induction df as [|x df IH]; simpl; [reflexivity|].
  rewrite insert_row_perm. apply perm_skip. exact IH.
Qed.

Lemma insert_row_sorted x l :
  StronglySorted (fun a b => row_leb a b = true) l ->
  StronglySorted (fun a b => row_leb a b = true) (insert_row x l).
Proof.
  induction 1 as [|y l Hs IH Hy]; simpl.
  - constructor; constructor.
  - destruct (row_leb x y) eqn:E.
    + constructor; [constructor; assumption|].
      constructor; [exact E|].
      eapply Forall_impl; [|exact Hy].
      intros z Hz. unfold row_leb in *. eapply key_leb_trans; eassumption.
    + constructor; [exact IH|].
      apply (Permutation_Forall (Permutation_sym (insert_row_perm x l))).
      constructor; [|exact Hy].
      unfold row_leb in *. apply key_leb_total. exact E.
Qed.

Lemma sort_values_sorted df :
  StronglySorted (fun a b => row_leb a b = true) (sort_values df).
Proof.
  induction df as [|x df IH]; simpl; [constructor|].
  apply insert_row_sorted. exact IH.
Qed.

(** ** Which rows the loop evaluates *)

Lemma evaluated_app (l l' : list Event) :
  evaluated (l ++ l') = evaluated l ++ evaluated l'.
Proof. unfold evaluated. apply flat_map_app. Qed.

Lemma silent_ret (A : Type) (a : A) : silent (ret a).
Proof. intros w out w' [= <- <-]. reflexivity. Qed.

Lemma silent_lift (A : Type) (e : Exception) (o : option A) : silent (lift e o).
Proof. destruct o; intros w out w' [= <- <-]; reflexivity. Qed.

Lemma silent_bind (A B : Type) (c : IO A) (k : A -> IO B) :
  silent c -> (forall a, silent (k a)) -> silent (bind c k).
Proof.
  intros Hc Hk w out w'. unfold bind.
  destruct (c w) as [[a|s|e] w1] eqn:E; intros H.
  - rewrite (Hk a w1 out w' H). exact (Hc w _ w1 E).
  - injection H as <- <-. exact (Hc w _ w1 E).
  - injection H as <- <-. exact (Hc w _ w1 E).
Qed.

Lemma silent_print (m : Message) :
  evaluated [Printed m] = [] -> silent (print m).
Proof.
  intros H w out w' [= <- <-]. rewrite emit_console, evaluated_app, H.
  apply app_nil_r.
Qed.

Lemma silent_choose (n : nat) : silent (choose n).
Proof.
  unfold choose. intros w out w'.
  generalize (stdin w) as pending. intros pending. revert w.
  induction pending as [|a l IH]; intros w; simpl.
  - intros [= <- <-]. rewrite emit_console, evaluated_app. apply app_nil_r.
  - destruct (accepted n a).
    + intros [= <- <-]. simpl. rewrite evaluated_app. apply app_nil_r.
    + intros H. apply IH in H. rewrite H. simpl. rewrite evaluated_app.
      apply app_nil_r.
Qed.

Lemma silent_print_candidates (cols : list string) df_custom l :
  forall i, silent (print_candidates cols df_custom i l).
Proof.
  induction l as [|idx l IH]; intros i; simpl.
  - apply silent_ret.
  - apply silent_bind; [apply silent_lift|]. intros row.
    apply silent_bind; [apply silent_print; reflexivity|]. intros _. apply IH.
Qed.

Lemma silent_record_answer df_mixxx_nm df_custom_nm idx_mixxx close_indices ans acc :
  silent (record_answer df_mixxx_nm df_custom_nm idx_mixxx close_indices ans acc).
Proof.
  unfold record_answer. destruct ans; [apply silent_ret|].
  repeat (apply silent_bind; [apply silent_lift|]; intro).
  apply silent_ret.
Qed.

Section Evaluation.

Variable MERGE_COLS : list string.
Variable THRESHOLD_NAME_SIMILARITY : nat.
Variable N_SIMILAR_TRACK_PROPOSAL : nat.
Variable closest :
  MixxxTrack -> DataFrame CustomTrack -> list string -> nat -> nat -> list Index.
Variable df_custom : DataFrame CustomTrack.
Variable df_mixxx_nm : DataFrame MixxxTrack.
Variable df_custom_nm : DataFrame CustomTrack.

Lemma close_match_evaluated idx_mixxx row acc w out w' :
  close_match MERGE_COLS THRESHOLD_NAME_SIMILARITY N_SIMILAR_TRACK_PROPOSAL
              closest df_custom df_mixxx_nm df_custom_nm idx_mixxx row acc w
    = (out, w') ->
  evaluated (console w') = evaluated (console w) ++ [idx_mixxx].
Proof.
  unfold close_match. rewrite bind_print. cbv beta zeta. intros H.
  assert (S : evaluated (console w') =
              evaluated (console (emit (Printed (MsgFinding idx_mixxx
                           (mixxx_key MERGE_COLS row))) w))).
  { destruct (closest row df_custom_nm MERGE_COLS THRESHOLD_NAME_SIMILARITY
                      N_SIMILAR_TRACK_PROPOSAL) as [|i l].
    - assert (Hs : silent (print (MsgNoSimilar THRESHOLD_NAME_SIMILARITY) ;;;
                           ret acc)).
      { apply silent_bind; [apply silent_print; reflexivity|]. intros _.
        apply silent_ret. }
      exact (Hs _ _ _ H).
    - assert (Hs : silent
        (print_candidates MERGE_COLS df_custom 0 (i :: l) ;;;
         ans <- choose (List.length (i :: l)) ;;
         record_answer df_mixxx_nm df_custom_nm idx_mixxx (i :: l) ans acc)).
      { apply silent_bind; [apply silent_print_candidates|]. intros _.
        apply silent_bind; [apply silent_choose|]. intros ans.
        apply silent_record_answer. }
      exact (Hs _ _ _ H). }
  rewrite S, emit_console, evaluated_app. reflexivity.
Qed.

Lemma close_matches_evaluated rows :
  forall acc w out w',
    close_matches MERGE_COLS THRESHOLD_NAME_SIMILARITY N_SIMILAR_TRACK_PROPOSAL
                  closest df_custom df_mixxx_nm df_custom_nm rows acc w
      = (out, w') ->
    exists done todo,
      rows = done ++ todo /\
      evaluated (console w') = evaluated (console w) ++ index done /\
      (forall l, out = Returned l -> todo = []).
Proof.
  induction rows as [|[idx row] rows IH]; intros acc w out w'; simpl.
  - intros [= <- <-]. exists [], []. simpl. rewrite app_nil_r. auto.
  - unfold bind at 1.
    destruct (close_match _ _ _ _ _ _ _ idx row acc w) as [[l|s|e] w1] eqn:E;
      intros H; pose proof (close_match_evaluated _ _ _ _ _ _ E) as Ev.
    + apply IH in H. destruct H as [done [todo [-> [H1 H2]]]].
      exists ((idx, row) :: done), todo. split; [reflexivity|].
      split; [|exact H2]. rewrite H1, Ev. simpl. rewrite <- app_assoc.
      reflexivity.
    + injection H as <- <-. exists [(idx, row)], rows.
      split; [reflexivity|]. split; [exact Ev | discriminate].
    + injection H as <- <-. exists [(idx, row)], rows.
      split; [reflexivity|]. split; [exact Ev | discriminate].
Qed.

End Evaluation.

Lemma close_stage_unmatched (cols : list string) (threshold n : nat)
      (closest : MixxxTrack -> DataFrame CustomTrack -> list string ->
                 nat -> nat -> list Index)
      df_custom df_custom_pm df_mixxx_nm df_custom_nm :
  df_mixxx_nm <> [] ->
  close_stage cols threshold n closest df_custom df_custom_pm df_mixxx_nm
              df_custom_nm =
  (print (MsgNotFound (List.length df_mixxx_nm)) ;;;
   list_idx_cm <- close_matches cols threshold n closest df_custom
                    (map_rows (fillna_mixxx cols) df_mixxx_nm)
                    (map_rows (fillna_custom cols) df_custom_nm)
                    (sort_values (map_rows (fillna_mixxx cols) df_mixxx_nm)) [] ;;
   ret (map project df_custom_pm ++ list_idx_cm)).
Proof.
  intros H. unfold close_stage. destruct df_mixxx_nm; [congruence | reflexivity].
Qed.

(** C6.  Order of evaluation.  For a non-empty truth residual, the rows the
    fuzzy stage evaluates (the residual with NA merge fields replaced by the
    empty string) are taken from the residual rearranged in ascending order of
    (artist, title): the rearranged rows hold the same rows, each is in order
    with all rows after it, and whatever the outcome of the stage the rows it
    has evaluated are, in this order, the first rows of that list; all of them
    when the stage returns. *)
Theorem evaluation_order_sorted (MERGE_COLS : list string)
        (THRESHOLD_NAME_SIMILARITY N_SIMILAR_TRACK_PROPOSAL : nat)
        (closest : MixxxTrack -> DataFrame CustomTrack -> list string ->
                   nat -> nat -> list Index)
        (df_custom : DataFrame CustomTrack) (df_custom_pm : list MergedRow)
        (df_mixxx_nm : DataFrame MixxxTrack) (df_custom_nm : DataFrame CustomTrack)
        (w : World) out w' :
  df_mixxx_nm <> [] ->
  close_stage MERGE_COLS THRESHOLD_NAME_SIMILARITY N_SIMILAR_TRACK_PROPOSAL
              closest df_custom df_custom_pm df_mixxx_nm df_custom_nm w
    = (out, w') ->
  let rows := sort_values (map_rows (fillna_mixxx MERGE_COLS) df_mixxx_nm) in
  Permutation rows (map_rows (fillna_mixxx MERGE_COLS) df_mixxx_nm) /\
  StronglySorted
    (fun a b => key_leb (sort_key (snd a)) (sort_key (snd b)) = true) rows /\
  exists done todo,
    rows = done ++ todo /\
    evaluated (console w') = evaluated (console w) ++ index done /\
    (forall l, out = Returned l -> todo = []).
Proof.
  intros Hne H rows. split; [apply sort_values_perm|].
  split; [apply sort_values_sorted|].
  rewrite close_stage_unmatched in H by exact Hne.
  rewrite bind_print in H. cbv beta in H.
  unfold bind in H. fold rows in H.
  destruct (close_matches _ _ _ _ _ _ _ rows [] _) as [[l|s|e] w1] eqn:E;
    apply close_matches_evaluated in E;
    destruct E as [done [todo [E1 [E2 E3]]]];
    rewrite emit_console, evaluated_app in E2; simpl in E2;
    rewrite app_nil_r in E2;
    injection H as <- <-; exists done, todo;
    (split; [exact E1 | split; [exact E2 |]]).
  - intros l0 _. apply (E3 l). reflexivity.
  - discriminate.
  - discriminate.
Qed.

(** ** Rows by label *)

Lemma loc_In (R : Type) (df : DataFrame R) (i : Index) (r : R) :
  loc df i = Some r -> In (i, r) df.
Proof.
  unfold loc. destruct (find _ _) as [e|] eqn:E; [|discriminate].
  intros [= <-]. apply find_some in E. destruct E as [Hin Heq].
  apply Z.eqb_eq in Heq. destruct e as [j x]. simpl in *. subst. exact Hin.
Qed.

Lemma loc_NoDup (R : Type) (df : DataFrame R) (i : Index) (r : R) :
  NoDup (index df) -> In (i, r) df -> loc df i = Some r.
Proof.
  unfold loc, index. induction df as [|[j x] df IH]; simpl; [tauto|].
  intros Hnd [E | Hin].
  - injection E as -> ->. rewrite Z.eqb_refl. reflexivity.
  - inversion Hnd as [|a l Hj Hl]; subst.
    destruct (Z.eqb_spec j i) as [->|N].
    + exfalso. apply Hj. apply (in_map fst) in Hin. exact Hin.
    + apply IH; assumption.
Qed.

Lemma loc_map_rows (R : Type) (f : R -> R) (df : DataFrame R) (i : Index) :
  loc (map_rows f df) i = option_map f (loc df i).
Proof.
  unfold loc, map_rows. induction df as [|[j x] df IH]; simpl; [reflexivity|].
  destruct (Z.eqb j i); [reflexivity | exact IH].
Qed.

Lemma index_map_rows (R : Type) (f : R -> R) (df : DataFrame R) :
  index (map_rows f df) = index df.
Proof.
  unfold index, map_rows. rewrite map_map. reflexivity.
Qed.

(** ** What a turn of the loop adds *)

Section Matches.

Variable MERGE_COLS : list string.
Variable THRESHOLD_NAME_SIMILARITY : nat.
Variable N_SIMILAR_TRACK_PROPOSAL : nat.
Variable closest :
  MixxxTrack -> DataFrame CustomTrack -> list string -> nat -> nat -> list Index.
Variable df_custom : DataFrame CustomTrack.
Variable df_mixxx_nm : DataFrame MixxxTrack.
Variable df_custom_nm : DataFrame CustomTrack.

Lemma record_answer_result idx_mixxx close_indices ans acc w l w' :
  record_answer df_mixxx_nm df_custom_nm idx_mixxx close_indices ans acc w
    = (Returned l, w') ->
  l = acc \/ exists r, fuzzy_row df_mixxx_nm df_custom_nm idx_mixxx r /\
                       l = acc ++ [r].
Proof.
  unfold record_answer. destruct ans as [|a s].
  - intros [= <- <-]. left. reflexivity.
  - intros H.
    apply bind_Returned in H. destruct H as [i [w1 [_ H]]].
    apply bind_Returned in H. destruct H as [idx_custom [w2 [_ H]]].
    apply bind_Returned in H. destruct H as [m [w3 [Hm H]]].
    apply bind_Returned in H. destruct H as [c [w4 [Hc H]]].
    apply lift_Returned in Hm. apply lift_Returned in Hc.
    injection H as <- <-. right. eexists. split; [|reflexivity].
    exists m, idx_custom, c. intuition.
Qed.

Lemma close_match_result idx_mixxx row acc w l w' :
  close_match MERGE_COLS THRESHOLD_NAME_SIMILARITY N_SIMILAR_TRACK_PROPOSAL
              closest df_custom df_mixxx_nm df_custom_nm idx_mixxx row acc w
    = (Returned l, w') ->
  l = acc \/ exists r, fuzzy_row df_mixxx_nm df_custom_nm idx_mixxx r /\
                       l = acc ++ [r].
Proof.
  unfold close_match. rewrite bind_print. cbv beta zeta.
  destruct (closest row df_custom_nm MERGE_COLS THRESHOLD_NAME_SIMILARITY
                    N_SIMILAR_TRACK_PROPOSAL) as [|i cs].
  - rewrite bind_print. intros [= <- <-]. left. reflexivity.
  - intros H.
    apply bind_Returned in H. destruct H as [u [w1 [_ H]]].
    apply bind_Returned in H. destruct H as [ans [w2 [_ H]]].
    apply record_answer_result in H. exact H.
Qed.

Lemma close_matches_result rows :
  forall acc w l w',
    close_matches MERGE_COLS THRESHOLD_NAME_SIMILARITY N_SIMILAR_TRACK_PROPOSAL
                  closest df_custom df_mixxx_nm df_custom_nm rows acc w
      = (Returned l, w') ->
    exists prov new,
      l = acc ++ new /\
      Forall2 (fuzzy_row df_mixxx_nm df_custom_nm) prov new /\
      (NoDup (index rows) -> NoDup prov) /\ incl prov (index rows).
Proof.
  induction rows as [|[idx row] rows IH]; intros acc w l w'; simpl.
  - intros [= <- <-]. exists [], []. rewrite app_nil_r.
    repeat split; try constructor. intros x [].
  - intros H. apply bind_Returned in H. destruct H as [l1 [w1 [H1 H2]]].
    apply IH in H2. destruct H2 as [prov [new [-> [F [N I]]]]].
    apply close_match_result in H1. destruct H1 as [-> | [r [Hr ->]]].
    + exists prov, new. repeat split; try assumption.
      * intros Hnd. inversion Hnd; auto.
      * intros x Hx. right. apply I. exact Hx.
    + exists (idx :: prov), (r :: new). rewrite <- app_assoc. simpl.
      repeat split.
      * constructor; assumption.
      * intros Hnd. inversion Hnd as [|a b Hidx Hrest]; subst.
        constructor; [|auto]. intros Hin. apply Hidx. apply I. exact Hin.
      * intros x [<- | Hx]; [left; reflexivity | right; apply I; exact Hx].
Qed.

End Matches.

(** ** The run as a whole *)

Section Run.

Variable MERGE_COLS : list string.
Variable THRESHOLD_NAME_SIMILARITY : nat.
Variable N_SIMILAR_TRACK_PROPOSAL : nat.
Variable closest :
  MixxxTrack -> DataFrame CustomTrack -> list string -> nat -> nat -> list Index.

Let run :=
  fix_with_clementine_db MERGE_COLS THRESHOLD_NAME_SIMILARITY
                         N_SIMILAR_TRACK_PROPOSAL closest.
Let stage :=
  close_stage MERGE_COLS THRESHOLD_NAME_SIMILARITY N_SIMILAR_TRACK_PROPOSAL
              closest.

(** A run that returns has asked for the refresh, been told "y", and has
    written the perfect matches followed by the confirmed close matches. *)
Lemma run_Returned df_mixxx df_custom w u w' :
  run df_mixxx df_custom w = (Returned u, w') ->
  exists rest pm nm_m nm_c final w1,
    df_mixxx <> [] /\
    stdin w = "y" :: rest /\
    perfect_match MERGE_COLS df_mixxx df_custom = Some (pm, nm_m, nm_c) /\
    stage df_custom pm nm_m nm_c
          {| stdin := rest; console := console w ++ [Asked AskRefreshed];
             custom_db := custom_db w |} = (Returned final, w1) /\
    custom_db w' = Some (map with_file_columns final) /\
    stdin w' = stdin w1.
Proof.
  unfold run, fix_with_clementine_db.
  destruct df_mixxx as [|r0 rs] eqn:Edf.
  - rewrite bind_print. discriminate.
  - rewrite <- Edf. intros H.
    apply bind_Returned in H. destruct H as [answer [w0 [Hin H]]].
    unfold input in Hin. destruct (stdin w) as [|a rest] eqn:Es; [discriminate|].
    injection Hin as <- <-.
    destruct (String.eqb_spec a "y") as [->|Na]; simpl in H;
      [|rewrite bind_print in H; discriminate].
    apply bind_Returned in H. destruct H as [[[pm nm_m] nm_c] [w1 [Hpm H]]].
    apply lift_Returned in Hpm. destruct Hpm as [Hpm ->].
    apply bind_Returned in H. destruct H as [final [w2 [Hst H]]].
    unfold bind, write_df_to_table, print in H. simpl in H.
    injection H as _ <-.
    exists rest, pm, nm_m, nm_c, final, w2.
    repeat split; try assumption; try reflexivity. congruence.
Qed.

Lemma stage_Returned df_custom pm nm_m nm_c w final w' :
  stage df_custom pm nm_m nm_c w = (Returned final, w') ->
  exists prov cm,
    final = map project pm ++ cm /\
    Forall2 (fuzzy_row (map_rows (fillna_mixxx MERGE_COLS) nm_m)
                       (map_rows (fillna_custom MERGE_COLS) nm_c)) prov cm /\
    (NoDup (index nm_m) -> NoDup prov) /\ incl prov (index nm_m).
Proof.
  unfold stage, close_stage. destruct nm_m as [|r0 rs] eqn:E.
  - intros [= <- <-]. exists [], []. rewrite app_nil_r.
    repeat split; try constructor. intros x [].
  - rewrite <- E in *. rewrite bind_print. cbv beta. intros H.
    apply bind_Returned in H. destruct H as [cm [w1 [H1 H2]]].
    injection H2 as <- <-.
    apply close_matches_result in H1.
    destruct H1 as [prov [new [-> [F [N I]]]]]. exists prov, new.
    repeat split; try assumption.
    + intros Hnd. apply N. unfold index.
      apply (Permutation_NoDup
               (Permutation_sym (Permutation_map fst (sort_values_perm _)))).
      fold (index (map_rows (fillna_mixxx MERGE_COLS) nm_m)).
      rewrite index_map_rows. exact Hnd.
    + intros x Hx. apply I in Hx. unfold index in *.
      apply (Permutation_in _ (Permutation_map fst (sort_values_perm _))) in Hx.
      fold (index (map_rows (fillna_mixxx MERGE_COLS) nm_m)) in Hx.
      rewrite index_map_rows in Hx. exact Hx.
Qed.

End Run.

(** ** Paths *)








(** ** Paths written as a root and components *)







(** ** The pair behind every row *)


Lemma Subsequence_length (A : Type) (l l' : list A) :
  Subsequence l l' -> List.length l <= List.length l'.
Proof.
  induction 1; simpl; lia.
Qed.

Lemma Subsequence_In (A : Type) (l l' : list A) (x : A) :
  Subsequence l l' -> In x l -> In x l'.
Proof.
  induction 1 as [|y l l' S IH|y l l' S IH]; simpl; intros H.
  - exact H.
  - destruct H as [H | H]; [left; exact H | right; apply IH; exact H].
  - right. apply IH. exact H.
Qed.

Lemma Subsequence_NoDup (A : Type) (l l' : list A) :
  Subsequence l l' -> NoDup l' -> NoDup l.
Proof.
  induction 1 as [|y l l' S IH|y l l' S IH]; intros N.
  - constructor.
  - inversion N as [|a b Hy Hl]; subst. constructor; [|auto].
    intros Hin. apply Hy. eapply Subsequence_In; eassumption.
  - inversion N; auto.
Qed.

Lemma Subsequence_map (A B : Type) (f : A -> B) (l l' : list A) :
  Subsequence l l' -> Subsequence (map f l) (map f l').
Proof.
  induction 1; simpl; constructor; assumption.
Qed.

Section Chosen.

Variable MERGE_COLS : list string.
Variable THRESHOLD_NAME_SIMILARITY : nat.
Variable N_SIMILAR_TRACK_PROPOSAL : nat.
Variable closest :
  MixxxTrack -> DataFrame CustomTrack -> list string -> nat -> nat -> list Index.
Variable df_custom : DataFrame CustomTrack.
Variable df_mixxx_nm : DataFrame MixxxTrack.
Variable df_custom_nm : DataFrame CustomTrack.

Lemma close_match_chosen idx_mixxx row acc w l w' :
  close_match MERGE_COLS THRESHOLD_NAME_SIMILARITY N_SIMILAR_TRACK_PROPOSAL
              closest df_custom df_mixxx_nm df_custom_nm idx_mixxx row acc w
    = (Returned l, w') ->
  l = acc \/
  exists r,
    chosen_row MERGE_COLS THRESHOLD_NAME_SIMILARITY N_SIMILAR_TRACK_PROPOSAL
               closest df_mixxx_nm df_custom_nm (idx_mixxx, row) r /\
    l = acc ++ [r].
Proof.
  unfold close_match. rewrite bind_print. cbv beta zeta.
  destruct (closest row df_custom_nm MERGE_COLS THRESHOLD_NAME_SIMILARITY
                    N_SIMILAR_TRACK_PROPOSAL) as [|i0 cs] eqn:Ec.
  - rewrite bind_print. intros [= <- <-]. left. reflexivity.
  - intros H.
    apply bind_Returned in H. destruct H as [u [w1 [_ H]]].
    apply bind_Returned in H. destruct H as [ans [w2 [_ H]]].
    unfold record_answer in H. destruct ans as [|a s].
    + injection H as <- <-. left. reflexivity.
    + apply bind_Returned in H. destruct H as [k [w3 [_ H]]].
      apply bind_Returned in H. destruct H as [idx_custom [w4 [Hk H]]].
      apply bind_Returned in H. destruct H as [m [w5 [Hm H]]].
      apply bind_Returned in H. destruct H as [c [w6 [Hc H]]].
      apply lift_Returned in Hk. apply lift_Returned in Hm.
      apply lift_Returned in Hc.
      injection H as <- <-. right. eexists. split; [|reflexivity].
      exists k, idx_custom, m, c. simpl. rewrite Ec. intuition.
Qed.


Lemma close_matches_subseq rows :
  forall acc w l w',
    close_matches MERGE_COLS THRESHOLD_NAME_SIMILARITY N_SIMILAR_TRACK_PROPOSAL
                  closest df_custom df_mixxx_nm df_custom_nm rows acc w
      = (Returned l, w') ->
    exists turns new,
      l = acc ++ new /\
      Subsequence turns rows /\
      Forall2 (chosen_row MERGE_COLS THRESHOLD_NAME_SIMILARITY
                          N_SIMILAR_TRACK_PROPOSAL closest df_mixxx_nm
                          df_custom_nm) turns new.
Proof.
  induction rows as [|[idx row] rows IH]; intros acc w l w'; simpl.
  - intros [= <- <-]. exists [], []. rewrite app_nil_r.
    repeat split; constructor.
  - intros H. apply bind_Returned in H. destruct H as [l1 [w1 [H1 H2]]].
    apply IH in H2. destruct H2 as [turns [new [-> [S F]]]].
    apply close_match_chosen in H1. destruct H1 as [-> | [r [Hr ->]]].
    + exists turns, new. repeat split; [|exact F].
      apply Subsequence_skip. exact S.
    + exists ((idx, row) :: turns), (r :: new). rewrite <- app_assoc.
      repeat split.
      * apply Subsequence_take. exact S.
      * constructor; assumption.
Qed.

End Chosen.

(** ** Where the rows of the result come from *)

Lemma Forall2_map_both (A B C : Type) (R : B -> C -> Prop)
      (f : A -> B) (g : A -> C) (l : list A) :
  (forall x, In x l -> R (f x) (g x)) -> Forall2 R (map f l) (map g l).
Proof.
  induction l as [|x l IH]; simpl; intros H; constructor; auto.
Qed.

Lemma Forall2_map_right (A B C : Type) (R : A -> B -> Prop) (S : A -> C -> Prop)
      (g : B -> C) (l : list A) (l' : list B) :
  (forall a b, R a b -> S a (g b)) -> Forall2 R l l' -> Forall2 S l (map g l').
Proof.
  intros H. induction 1; simpl; constructor; auto.
Qed.

Lemma Forall2_In_right (A B : Type) (R : A -> B -> Prop) (l : list A)
      (l' : list B) (b : B) :
  Forall2 R l l' -> In b l' -> exists a, In a l /\ R a b.
Proof.
  induction 1 as [|x y l l' Hxy _ IH]; simpl; [tauto|].
  intros [<- | Hin].
  - exists x. auto.
  - destruct (IH Hin) as [a [Ha Hr]]. exists a. auto.
Qed.

Lemma fuzzy_row_origin (cols : list string) nm_m nm_c i r :
  fuzzy_row (map_rows (fillna_mixxx cols) nm_m)
            (map_rows (fillna_custom cols) nm_c) i r ->
  exists t j c,
    In (i, t) nm_m /\ In (j, c) nm_c /\
    library_idx r = mx_id t /\ location_idx r = mx_location t /\
    path r = file_path c.
Proof.
  intros [m [j [c [Hm [Hc ->]]]]].
  rewrite loc_map_rows in Hm, Hc.
  destruct (loc nm_m i) as [t|] eqn:Et; [|discriminate].
  destruct (loc nm_c j) as [c0|] eqn:Ec; [|discriminate].
  injection Hm as <-. injection Hc as <-.
  exists t, j, c0. apply loc_In in Et. apply loc_In in Ec.
  simpl. auto.
Qed.

Section Result.

Variable MERGE_COLS : list string.
Variable THRESHOLD_NAME_SIMILARITY : nat.
Variable N_SIMILAR_TRACK_PROPOSAL : nat.
Variable closest :
  MixxxTrack -> DataFrame CustomTrack -> list string -> nat -> nat -> list Index.

Let run :=
  fix_with_clementine_db MERGE_COLS THRESHOLD_NAME_SIMILARITY
                         N_SIMILAR_TRACK_PROPOSAL closest.

(** The table a returning run has written: the perfect matches, then one
    row for each label of [prov], labels of unmatched Mixxx rows. *)
Lemma run_table df_mixxx df_custom w u w' :
  run df_mixxx df_custom w = (Returned u, w') ->
  exists pm nm_m nm_c prov cm,
    perfect_match MERGE_COLS df_mixxx df_custom = Some (pm, nm_m, nm_c) /\
    custom_db w' = Some (map with_file_columns (map project pm ++ cm)) /\
    Forall2 (fuzzy_row (map_rows (fillna_mixxx MERGE_COLS) nm_m)
                       (map_rows (fillna_custom MERGE_COLS) nm_c)) prov cm /\
    (NoDup (index nm_m) -> NoDup prov) /\ incl prov (index nm_m).
Proof.
  intros H. apply run_Returned in H.
  destruct H as [rest [pm [nm_m [nm_c [final [w1 [_ [_ [Hpm [Hst [Hdb _]]]]]]]]]]].
  apply stage_Returned in Hst.
  destruct Hst as [prov [cm [-> [F [N I]]]]].
  exists pm, nm_m, nm_c, prov, cm. auto.
Qed.



End Result.

(** ** How often a truth record is matched *)

Lemma count_index_filter (p : Index * MixxxTrack -> bool)
      (df : DataFrame MixxxTrack) (i : Index) (t : MixxxTrack) :
  NoDup (index df) -> In (i, t) df ->
  count_occ Z.eq_dec (map fst (filter p df)) i = if p (i, t) then 1 else 0.
Proof.
  unfold index. induction df as [|[j x] df IH]; simpl; [tauto|].
  intros Hnd Hin. inversion Hnd as [|a l Hj Hl]; subst.
  destruct Hin as [E | Hin].
  - injection E as -> ->.
    assert (Z0 : count_occ Z.eq_dec (map fst (filter p df)) i = 0).
    { apply count_occ_not_In. intros H. apply Hj.
      apply in_map_iff in H. destruct H as [e [<- He]].
      apply filter_In in He. apply in_map. apply He. }
    destruct (p (i, t)); simpl; [|exact Z0].
    destruct (Z.eq_dec i i); [|congruence]. rewrite Z0. reflexivity.
  - assert (N : j <> i).
    { intros ->. apply Hj. apply (in_map fst) in Hin. exact Hin. }
    destruct (p (j, x)); simpl.
    + destruct (Z.eq_dec j i); [congruence|]. apply IH; assumption.
    + apply IH; assumption.
Qed.

(** In the perfect matches a truth record comes once for every other record
    that agrees with it on all merge fields. *)
Lemma count_perfect_matches (cols : list string) df_custom df_mixxx i t :
  NoDup (index df_mixxx) -> In (i, t) df_mixxx ->
  count_occ Z.eq_dec (map saved_index_mixxx (pd_merge cols df_custom df_mixxx)) i
  = exact_partners cols df_custom t.
Proof.
  intros Hnd Hin. unfold pd_merge, exact_partners.
  induction df_custom as [|l L IH]; [reflexivity|].
  cbn [flat_map]. rewrite map_app, count_occ_app, map_map.
  change (map (fun x : Index * MixxxTrack => saved_index_mixxx (l, x)))
    with (map (@fst Index MixxxTrack)).
  rewrite (count_index_filter _ df_mixxx i t Hnd Hin). cbn [filter snd].
  etransitivity; [apply f_equal; exact IH|].
  destruct (cells_eqb (custom_key cols (snd l)) (mixxx_key cols t));
    reflexivity.
Qed.

Section Soundness.

Variable MERGE_COLS : list string.
Variable THRESHOLD_NAME_SIMILARITY : nat.
Variable N_SIMILAR_TRACK_PROPOSAL : nat.
Variable closest :
  MixxxTrack -> DataFrame CustomTrack -> list string -> nat -> nat -> list Index.

Let run :=
  fix_with_clementine_db MERGE_COLS THRESHOLD_NAME_SIMILARITY
                         N_SIMILAR_TRACK_PROPOSAL closest.

(** C1, as amended.  When the index labels of the truth collection are
    distinct, the rows of the table a run writes can be labelled, row by
    row, with the truth record each of them carries the keys of, so that: a
    truth record that agrees with no other record on all merge fields
    labels at most one row; a truth record that agrees with [k >= 1] other
    records labels exactly [k] rows, one for each of them.  Hence no truth
    record appears in two rows when no truth record agrees with more than
    one other record on all merge fields. *)
Theorem merge_rows_per_truth_record (df_mixxx : DataFrame MixxxTrack)
        (df_custom : DataFrame CustomTrack) (w : World) u w' :
  NoDup (index df_mixxx) ->
  run df_mixxx df_custom w = (Returned u, w') ->
  exists table prov,
    custom_db w' = Some table /\
    Forall2 (row_of_truth df_mixxx) prov table /\
    (forall i t, In (i, t) df_mixxx ->
       let k := exact_partners MERGE_COLS df_custom t in
       (k = 0 -> count_occ Z.eq_dec prov i <= 1) /\
       (1 <= k -> count_occ Z.eq_dec prov i = k)) /\
    ((forall i t, In (i, t) df_mixxx ->
                  exact_partners MERGE_COLS df_custom t <= 1) ->
     NoDup prov).
Proof.
  intros Hnd H. apply run_table in H.
  destruct H as [pm [nm_m [nm_c [prov [cm [Hpm [Hdb [F [N I]]]]]]]]].
  pose proof (perfect_match_inv _ _ _ _ _ _ Hpm) as [Epm [Dm Dc]].
  assert (Hnm : NoDup (index nm_m)).
  { unfold drop in Dm. destruct (forallb _ _); [|discriminate].
    injection Dm as <-. apply NoDup_index_filter. exact Hnd. }
  specialize (N Hnm).
  assert (Hcount : forall i t, In (i, t) df_mixxx ->
            let k := exact_partners MERGE_COLS df_custom t in
            (k = 0 -> count_occ Z.eq_dec (map saved_index_mixxx pm ++ prov) i <= 1) /\
            (1 <= k -> count_occ Z.eq_dec (map saved_index_mixxx pm ++ prov) i = k)).
  { intros i t Hin k. rewrite count_occ_app.
    pose proof (count_perfect_matches MERGE_COLS df_custom df_mixxx i t Hnd Hin)
      as C. rewrite <- Epm in C. fold k in C. rewrite C. split.
    - intros ->. simpl.
      apply (proj1 (NoDup_count_occ Z.eq_dec prov) N).
    - intros Hk.
      assert (Z0 : count_occ Z.eq_dec prov i = 0).
      { apply count_occ_not_In. intros Hp. apply I in Hp.
        unfold index in Hp. apply in_map_iff in Hp.
        destruct Hp as [e [E He]].
        apply (in_drop _ _ _ _ e Dm) in He. destruct He as [_ Hno].
        apply Hno. rewrite E.
        apply (count_occ_In Z.eq_dec). lia. }
      lia. }
  exists (map with_file_columns (map project pm ++ cm)),
         (map saved_index_mixxx pm ++ prov).
  split; [exact Hdb|]. split; [|split].
  - rewrite map_app. apply Forall2_app.
    + rewrite map_map. apply Forall2_map_both.
      intros m Hm. rewrite Epm in Hm. apply in_pd_merge in Hm.
      destruct Hm as [_ [Hr _]]. destruct m as [[j c] [i t]].
      exists t. simpl in *. split; [|auto].
      apply loc_NoDup; assumption.
    + apply Forall2_map_right with (2 := F). intros i r Hf.
      apply fuzzy_row_origin in Hf.
      destruct Hf as [t [j [c [Ht [_ [E1 [E2 _]]]]]]].
      apply (unmatched_mixxx _ _ _ _ _ _ _ _ Hpm) in Ht.
      exists t. simpl. split; [|auto].
      apply loc_NoDup; tauto.
  - exact Hcount.
  - intros Hk. apply (NoDup_count_occ Z.eq_dec). intros i.
    destruct (in_dec Z.eq_dec i (index df_mixxx)) as [Hi | Hi].
    + unfold index in Hi. apply in_map_iff in Hi.
      destruct Hi as [[i' t] [E Hin]]. simpl in E. subst i'.
      destruct (Hcount i t Hin) as [H0 H1]. specialize (Hk i t Hin).
      destruct (exact_partners MERGE_COLS df_custom t) as [|k] eqn:Ek.
      * apply H0. reflexivity.
      * rewrite H1; lia.
    + rewrite (proj1 (count_occ_not_In Z.eq_dec _ i)); [lia|].
      intros Hin. apply Hi. apply in_app_or in Hin.
      destruct Hin as [Hin | Hin].
      * apply in_map_iff in Hin. destruct Hin as [m [<- Hm]].
        rewrite Epm in Hm. apply in_pd_merge in Hm.
        destruct Hm as [_ [Hr _]]. unfold index, saved_index_mixxx.
        apply in_map. exact Hr.
      * apply I in Hin. unfold index in *. apply in_map_iff in Hin.
        destruct Hin as [e [<- He]].
        apply (in_drop _ _ _ _ e Dm) in He. apply in_map. apply He.
Qed.

End Soundness.

(** ** Runs with nothing left to match, and runs that reuse a record *)

Lemma drop_nothing (R : Type) (df : DataFrame R) : drop [] df = Some df.
Proof.
  unfold drop. simpl. f_equal. induction df as [|e df IH]; simpl; congruence.
Qed.

Lemma cells_eqb_differ (cols : list string) t c :
  ~ same_merge_fields cols t c ->
  cells_eqb (custom_key cols c) (mixxx_key cols t) = false.
Proof.
  intros H. apply not_true_is_false. intros E. apply H.
  apply same_merge_fields_key. apply cells_eqb_eq. exact E.
Qed.

Section Stages.

Variable MERGE_COLS : list string.
Variable THRESHOLD_NAME_SIMILARITY : nat.
Variable N_SIMILAR_TRACK_PROPOSAL : nat.
Variable closest :
  MixxxTrack -> DataFrame CustomTrack -> list string -> nat -> nat -> list Index.

Let run :=
  fix_with_clementine_db MERGE_COLS THRESHOLD_NAME_SIMILARITY
                         N_SIMILAR_TRACK_PROPOSAL closest.

(** C9, as amended.  When the truth residual is empty the run does not
    fail on that account.  With an empty truth collection it announces that
    no track is missing and exits with status 0, asking nothing and writing
    nothing.  With a truth collection that is not empty and is matched
    exactly in full, once the operator has answered "y" to the question
    about the refresh, the run returns: no row is evaluated, the operator is
    not asked to choose, and the table written holds exactly the rows of the
    perfect matches, of which there is at least one. *)
Theorem empty_residual_run :
  (forall df_custom w,
      run [] df_custom w =
      (SystemExit 0,
       {| stdin := stdin w;
          console := console w ++ [Printed MsgNoMissingTracks];
          custom_db := custom_db w |})) /\
  (forall df_mixxx df_custom df_custom_pm df_custom_nm w rest,
      df_mixxx <> [] ->
      perfect_match MERGE_COLS df_mixxx df_custom
        = Some (df_custom_pm, [], df_custom_nm) ->
      stdin w = "y" :: rest ->
      let table := map with_file_columns (map project df_custom_pm) in
      table <> [] /\
      run df_mixxx df_custom w =
      (Returned tt,
       {| stdin := rest;
          console := console w ++ [Asked AskRefreshed;
                                   Printed (MsgTableUsed table)];
          custom_db := Some table |})).
Proof.
  split; [reflexivity|].
  intros df_mixxx df_custom pm nm_c w rest Hne Hpm Hin table. split.
  - apply perfect_match_inv in Hpm. destruct Hpm as [_ [Dm _]].
    destruct df_mixxx as [|e rs]; [congruence|].
    destruct (in_dec Z.eq_dec (fst e) (map saved_index_mixxx pm)) as [Hi | Hi].
    + subst table. destruct pm; [destruct Hi | discriminate].
    + exfalso. apply (in_nil (a := e)).
      apply (in_drop _ _ _ _ e Dm). split; [left; reflexivity | exact Hi].
  - unfold run, fix_with_clementine_db.
    destruct df_mixxx as [|e rs] eqn:E; [congruence|].
    rewrite <- E in Hpm |- *.
    unfold bind at 1. unfold input. rewrite Hin.
    simpl (negb ("y" =? "y")%string). cbv iota. rewrite Hpm. io_steps.
    cbv iota beta. unfold close_stage. io_steps.
    unfold bind, write_df_to_table, print, emit. simpl.
    rewrite <- app_assoc. reflexivity.
Qed.

(** C4.  The close-match stage hands every truth record the same pool: a
    record of the other collection that has been confirmed for one truth
    record is still proposed to the next.  Two truth records with distinct
    labels, neither agreeing with the only other record on all merge fields,
    the first sorted before the second, both are proposed that other record;
    the operator answers "y", then "0" for each, all accepted answers; the
    run returns and the table written has two rows, one for each truth
    record, both with the path of that other record. *)
Theorem other_record_reused (i1 i2 j : Index) (t1 t2 : MixxxTrack)
        (c : CustomTrack) (w : World) (rest : list string) :
  let pool := [(j, fillna_custom MERGE_COLS c)] in
  let r1 := fillna_mixxx MERGE_COLS t1 in
  let r2 := fillna_mixxx MERGE_COLS t2 in
  i1 <> i2 ->
  ~ same_merge_fields MERGE_COLS t1 c ->
  ~ same_merge_fields MERGE_COLS t2 c ->
  key_leb (sort_key r1) (sort_key r2) = true ->
  closest r1 pool MERGE_COLS THRESHOLD_NAME_SIMILARITY
          N_SIMILAR_TRACK_PROPOSAL = [j] ->
  closest r2 pool MERGE_COLS THRESHOLD_NAME_SIMILARITY
          N_SIMILAR_TRACK_PROPOSAL = [j] ->
  stdin w = "y" :: "0" :: "0" :: rest ->
  accepted 1 "0" = true /\
  exists w',
    run [(i1, t1); (i2, t2)] [(j, c)] w = (Returned tt, w') /\
    stdin w' = rest /\
    evaluated (console w') = evaluated (console w) ++ [i1; i2] /\
    custom_db w' =
    Some [with_file_columns
            {| library_idx := mx_id t1; location_idx := mx_location t1;
               path := file_path c |};
          with_file_columns
            {| library_idx := mx_id t2; location_idx := mx_location t2;
               path := file_path c |}].
Proof.
  intros pool r1 r2 Hi H1 H2 Hle C1 C2 Hin. split; [reflexivity|].
  assert (Hpm : perfect_match MERGE_COLS [(i1, t1); (i2, t2)] [(j, c)]
                = Some ([], [(i1, t1); (i2, t2)], [(j, c)])).
  { unfold perfect_match, pd_merge. cbn [flat_map filter map app snd].
    rewrite (cells_eqb_differ _ _ _ H1), (cells_eqb_differ _ _ _ H2).
    cbn [flat_map filter map app snd]. rewrite !drop_nothing. reflexivity. }
  assert (Hshown : Forall (fun idx => loc [(j, c)] idx <> None) [j]).
  { constructor; [|constructor]. unfold loc. simpl. rewrite Z.eqb_refl.
    discriminate. }
  assert (Hc : loc pool j = Some (fillna_custom MERGE_COLS c)).
  { unfold loc, pool. simpl. rewrite Z.eqb_refl. reflexivity. }
  assert (Hm1 : loc [(i1, r1); (i2, r2)] i1 = Some r1).
  { unfold loc. simpl. rewrite Z.eqb_refl. reflexivity. }
  assert (Hm2 : loc [(i1, r1); (i2, r2)] i2 = Some r2).
  { unfold loc. simpl. rewrite (proj2 (Z.eqb_neq i1 i2) Hi), Z.eqb_refl.
    reflexivity. }
  assert (Hsort : sort_values [(i1, r1); (i2, r2)] = [(i1, r1); (i2, r2)]).
  { simpl. unfold row_leb. simpl snd. rewrite Hle. reflexivity. }
  eexists. split; [|split; [|split]].
  - unfold run, fix_with_clementine_db.
    unfold bind at 1. unfold input. rewrite Hin.
    simpl (negb ("y" =? "y")%string). cbv iota. rewrite Hpm. io_steps.
    cbv iota beta. unfold close_stage. io_steps.
    change (map_rows (fillna_mixxx MERGE_COLS) [(i1, t1); (i2, t2)])
      with [(i1, r1); (i2, r2)].
    change (map_rows (fillna_custom MERGE_COLS) [(j, c)]) with pool.
    rewrite Hsort. cbn [close_matches].
    eapply bind_intro.
    { rewrite bind_print. cbv beta. eapply bind_intro.
      { eapply bind_intro.
        { erewrite close_match_answered
            with (close_indices := [j]) (rejected := []) (ans := "0")
                 (rest := "0" :: rest);
            [| exact C1 | discriminate | exact Hshown | reflexivity
             | constructor | reflexivity].
          exact (record_answer_index _ _ i1 [j] [] _ 0 j r1 _ eq_refl Hm1 Hc). }
        cbv beta. eapply bind_intro.
        { erewrite close_match_answered
            with (close_indices := [j]) (rejected := []) (ans := "0")
                 (rest := rest);
            [| exact C2 | discriminate | exact Hshown | reflexivity
             | constructor | reflexivity].
          exact (record_answer_index _ _ i2 [j] _ _ 0 j r2 _ eq_refl Hm2 Hc). }
        cbv beta. reflexivity. }
      cbv beta. reflexivity. }
    cbv beta. reflexivity.
  - reflexivity.
  - simpl console.
    assert (L : loc [(j, c)] j = Some c).
    { unfold loc. simpl. rewrite Z.eqb_refl. reflexivity. }
    rewrite L, !evaluated_app. simpl. rewrite !app_nil_r, <- app_assoc.
    reflexivity.
  - reflexivity.
Qed.

End Stages.

(** ** The proposals *)

Lemma candidate_leb_le (a b : MatchCandidate) :
  candidate_leb a b = true <-> candidate_le a b.
Proof.
  unfold candidate_leb, candidate_le.
  rewrite orb_true_iff, andb_true_iff, Nat.ltb_lt, Nat.eqb_eq, Z.leb_le.
  reflexivity.
Qed.

Lemma candidate_le_total (a b : MatchCandidate) :
  candidate_leb a b = false -> candidate_le b a.
Proof.
  intros H. apply not_true_iff_false in H. rewrite candidate_leb_le in H.
  unfold candidate_le in *.
  destruct (Nat.lt_trichotomy (score a) (score b)) as [L | [E | G]].
  - exfalso. apply H. left. exact L.
  - right. split; [symmetry; exact E|].
    destruct (Z.le_gt_cases (other_index a) (other_index b)) as [Hle | Hgt];
      [exfalso; apply H; right; auto | lia].
  - left. exact G.
Qed.

Lemma candidate_le_trans (a b c : MatchCandidate) :
  candidate_le a b -> candidate_le b c -> candidate_le a c.
Proof. unfold candidate_le. intros [H1 | [E1 L1]] [H2 | [E2 L2]]; lia. Qed.

Lemma insert_candidate_perm x l : Permutation (insert_candidate x l) (x :: l).
Proof.
  induction l as [|y l IH]; simpl; [reflexivity|].
  destruct (candidate_leb x y); [reflexivity|].
  rewrite IH. apply perm_swap.
Qed.

Lemma sort_candidates_perm l : Permutation (sort_candidates l) l.
Proof.
  induction l as [|x l IH]; simpl; [reflexivity|].
  rewrite insert_candidate_perm. apply perm_skip. exact IH.
Qed.

Lemma insert_candidate_sorted x l :
  StronglySorted candidate_le l -> StronglySorted candidate_le (insert_candidate x l).
Proof.
  induction 1 as [|y l Hs IH Hy]; simpl.
  - constructor; constructor.
  - destruct (candidate_leb x y) eqn:E.
    + apply candidate_leb_le in E.
      constructor; [constructor; assumption|].
      constructor; [exact E|].
      eapply Forall_impl; [|exact Hy].
      intros z Hz. eapply candidate_le_trans; eassumption.
    + constructor; [exact IH|].
      apply (Permutation_Forall (Permutation_sym (insert_candidate_perm x l))).
      constructor; [|exact Hy]. apply candidate_le_total. exact E.
Qed.

Lemma sort_candidates_sorted l : StronglySorted candidate_le (sort_candidates l).
Proof.
  induction l as [|x l IH]; simpl; [constructor|].
  apply insert_candidate_sorted. exact IH.
Qed.

Lemma firstn_In (A : Type) (n : nat) (l : list A) (x : A) :
  In x (firstn n l) -> In x l.
Proof.
  revert l. induction n as [|n IH]; intros [|y l]; simpl; try tauto.
  intros [E | H]; [left; exact E | right; apply IH; exact H].
Qed.

Lemma StronglySorted_firstn (A : Type) (R : A -> A -> Prop) (n : nat) (l : list A) :
  StronglySorted R l -> StronglySorted R (firstn n l).
Proof.
  intros H. revert n. induction H as [|x l Hs IH Hx]; intros [|n]; simpl;
    try constructor.
  - apply IH.
  - rewrite Forall_forall in *. intros y Hy. apply Hx.
    apply (firstn_In _ n). exact Hy.
Qed.

(** C7.  Candidate bound and ordering.  For every truth record, pool,
    threshold and maximum count, [get_closest_matches_indices] returns the
    index labels of the proposed candidates; there are at most
    [max_candidates] of them; each is a row of the pool whose distance to the
    record is strictly below the threshold; and they come in ascending order
    of distance, equal distances in ascending order of index label. *)
Theorem candidate_bound_and_order (distance : list Cell -> list Cell -> nat)
        (record : MixxxTrack) (candidate_pool : DataFrame CustomTrack)
        (merge_fields : list string) (threshold max_candidates : nat) :
  let proposed :=
    propose_candidates distance record candidate_pool merge_fields threshold
                       max_candidates in
  get_closest_matches_indices distance record candidate_pool merge_fields
                              threshold max_candidates
    = map other_index proposed /\
  List.length proposed <= max_candidates /\
  Forall (fun cand =>
            score cand < threshold /\
            exists o, In (other_index cand, o) candidate_pool /\
                      score cand = distance (mixxx_key merge_fields record)
                                            (custom_key merge_fields o))
         proposed /\
  StronglySorted candidate_le proposed.
Proof.
  intros proposed. split; [reflexivity|]. split; [|split].
  - unfold proposed, propose_candidates. apply firstn_le_length.
  - apply Forall_forall. intros cand Hc.
    unfold proposed, propose_candidates in Hc.
    apply firstn_In in Hc.
    apply (Permutation_in _ (sort_candidates_perm _)) in Hc.
    apply filter_In in Hc. destruct Hc as [Hc Hlt].
    apply Nat.ltb_lt in Hlt. split; [exact Hlt|].
    apply in_map_iff in Hc. destruct Hc as [[j o] [<- Ho]].
    exists o. split; [exact Ho | reflexivity].
  - unfold proposed, propose_candidates. apply StronglySorted_firstn.
    apply sort_candidates_sorted.
Qed.

(** ** Confirming the configuration *)

Lemma contains_app_r (sub a b : string) :
  contains sub b = true -> contains sub (a ++ b)%string = true.
Proof.
  intros H. induction a as [|c a IH]; simpl; [exact H|].
  rewrite IH. apply orb_true_r.
Qed.

Lemma contains_dot_head (s : string) : contains "." (String "."%char s) = true.
Proof. simpl. destruct s; reflexivity. Qed.

(** A float that [repr] writes in positional notation has a "." in it. *)
Lemma positional_float_has_dot (neg : bool) (digits : string) (decpt : Z) :
  (-4 < decpt <= 16)%Z ->
  contains "." (float_repr (FFinite neg digits decpt)) = true.
Proof.
  intros H. unfold float_repr.
  replace ((decpt <=? -4)%Z || (16 <? decpt)%Z) with false
    by (symmetry; apply orb_false_iff; split; [apply Z.leb_gt | apply Z.ltb_ge]; lia).
  apply contains_app_r.
  destruct (decpt <=? 0)%Z.
  - apply (contains_app_r "." "0"). apply contains_dot_head.
  - destruct (Z.of_nat (String.length digits) <=? decpt)%Z.
    + apply contains_app_r. apply contains_app_r. reflexivity.
    + apply contains_app_r. apply contains_dot_head.
Qed.

Lemma insert_param_not_nil x l : insert_param x l <> [].
Proof.
  destruct l as [|y l]; simpl; [discriminate|].
  destruct (String.leb (fst x) (fst y)); discriminate.
Qed.

Lemma sorted_nil_iff l : sorted l = [] <-> l = [].
Proof.
  destruct l as [|x l]; simpl; [tauto|].
  split; [|discriminate]. intros H. destruct (insert_param_not_nil _ _ H).
Qed.

Lemma filter_nil_iff (A : Type) (f : A -> bool) (l : list A) :
  filter f l = [] <-> forall x, In x l -> f x = false.
Proof.
  induction l as [|a l IH]; simpl.
  - split; [intros _ x [] | reflexivity].
  - destruct (f a) eqn:E.
    + split; [discriminate|]. intros H. rewrite (H a) in E by auto. discriminate.
    + rewrite IH. split.
      * intros H x [<- | Hx]; auto.
      * intros H x Hx. apply H. auto.
Qed.

Lemma print_params_lines params w :
  print_params params w =
  (Returned tt,
   {| stdin := stdin w; console := console w ++ param_lines params;
      custom_db := custom_db w |}).
Proof.
  revert w. induction params as [|p l IH]; intros w; simpl.
  - unfold ret. rewrite app_nil_r. destruct w; reflexivity.
  - rewrite bind_print. cbv beta. rewrite IH. simpl.
    rewrite <- app_assoc. reflexivity.
Qed.

(** C10, as amended.  A member is eligible when its name does not start with
    "__" and the string form of its value contains no "."; this excludes every
    float written in positional notation (decimal point position from -3 to
    16), not the floats written without a ".".  Without an eligible member
    [confirm_config] returns at once: nothing is printed, nothing asked.  With
    an eligible member it prints the parameters, asks once, and on the
    operator's answer returns when the answer is "y" and exits with status 1
    when it is anything else. *)
Theorem confirm_config_contract (module_name : string)
        (members : list (string * PyValue)) :
  (forall i, eligible i = true <->
             startswith (fst i) "__" = false /\
             contains "." (py_str (snd i)) = false) /\
  (forall param_name neg digits decpt,
      (-4 < decpt <= 16)%Z ->
      eligible (param_name, VFloat (FFinite neg digits decpt)) = false) /\
  ((forall i, In i members -> eligible i = false) ->
   forall w, confirm_config module_name members w = (Returned tt, w)) /\
  (forall i, In i members -> eligible i = true ->
   forall w answer rest,
     stdin w = answer :: rest ->
     confirm_config module_name members w =
     (if String.eqb answer "y" then Returned tt else SystemExit 1,
      {| stdin := rest;
         console := console w
                      ++ Printed (MsgConfigHeader module_name)
                      :: param_lines (sorted (filter eligible members))
                      ++ [Asked AskSettings];
         custom_db := custom_db w |})).
Proof.
  split; [|split; [|split]].
  - intros i. unfold eligible.
    rewrite andb_true_iff, !negb_true_iff. reflexivity.
  - intros param_name neg digits decpt H. unfold eligible. simpl snd.
    unfold py_str. rewrite positional_float_has_dot by exact H.
    apply andb_false_r.
  - intros H w. unfold confirm_config.
    replace (filter eligible members) with (@nil (string * PyValue))
      by (symmetry; apply filter_nil_iff; exact H).
    reflexivity.
  - intros i Hi He w answer rest Hin. unfold confirm_config.
    destruct (sorted (filter eligible members)) as [|p ps] eqn:E.
    + apply (proj1 (sorted_nil_iff _)) in E.
      rewrite (proj1 (filter_nil_iff _ _ _) E i Hi) in He. discriminate.
    + rewrite <- E. rewrite bind_print. cbv beta.
      unfold bind at 1. rewrite print_params_lines.
      unfold bind, input. simpl stdin. rewrite Hin.
      destruct (String.eqb answer "y"); simpl; unfold ret, exit;
        repeat rewrite <- app_assoc; reflexivity.
Qed.

(** * The properties on the examples of the specification *)

(** C1 as stated fails: one truth record, two other records with its artist
    and title; the run returns and the table has two rows, both with the keys
    of that one truth record. *)
Lemma one_truth_record_in_two_rows :
  List.length [(0%Z, one_more_time)] = 1 /\
  example_run [(0%Z, one_more_time)] [(0%Z, a_mp3); (1%Z, a_copy)] (fresh ["y"])
  = (Returned tt,
     {| stdin := [];
        console := [Asked AskRefreshed; Printed (MsgTableUsed [row_a; row_a_copy])];
        custom_db := Some [row_a; row_a_copy] |}) /\
  library_idx (match_row row_a) = library_idx (match_row row_a_copy) /\
  location_idx (match_row row_a) = location_idx (match_row row_a_copy).
Proof. repeat split; vm_compute; reflexivity. Qed.

(** C9 as stated fails: every truth record is matched exactly, the truth
    residual is empty, and the table the run writes is not empty. *)
Lemma empty_residual_output_not_empty :
  (exists pm nm_c,
      perfect_match artist_title [(0%Z, one_more_time)] [(0%Z, a_mp3)]
      = Some (pm, [], nm_c)) /\
  example_run [(0%Z, one_more_time)] [(0%Z, a_mp3)] (fresh ["y"])
  = (Returned tt,
     {| stdin := [];
        console := [Asked AskRefreshed; Printed (MsgTableUsed [row_a])];
        custom_db := Some [row_a] |}).
Proof.
  split; [|vm_compute; reflexivity].
  eexists _, _. vm_compute. reflexivity.
Qed.

(** C10 as stated fails: the float 1e-05 is printed without a "." and is an
    eligible parameter; [confirm_config] shows it and asks. *)
Lemma float_setting_is_eligible :
  py_str (VFloat (FFinite false "1" (-4))) = "1e-05" /\
  eligible ("EPSILON", VFloat (FFinite false "1" (-4))) = true /\
  confirm_config "config" [("EPSILON", VFloat (FFinite false "1" (-4)))]
                 (fresh ["n"])
  = (SystemExit 1,
     {| stdin := [];
        console := [Printed (MsgConfigHeader "config");
                    Printed (MsgParam "EPSILON" "1e-05");
                    Asked AskSettings];
        custom_db := None |}).
Proof. repeat split; vm_compute; reflexivity. Qed.

(** C2 on an example: one truth record is matched exactly, one is not. *)
Lemma exact_match_completeness_witness :
  exists pm nm_m nm_c,
    perfect_match artist_title
      [(0%Z, one_more_time); (1%Z, aerodynamic)] [(0%Z, a_mp3); (1%Z, b_mp3)]
    = Some (pm, nm_m, nm_c) /\
    (forall i t, In (i, t) nm_m ->
       forall j c, In (j, c) [(0%Z, a_mp3); (1%Z, b_mp3)] ->
                   ~ same_merge_fields artist_title t c).
Proof.
  destruct (exact_match_completeness artist_title
              [(0%Z, one_more_time); (1%Z, aerodynamic)]
              [(0%Z, a_mp3); (1%Z, b_mp3)])
    as [pm [nm_m [nm_c [E [_ [H _]]]]]].
  exists pm, nm_m, nm_c. split; [exact E|].
  intros i t Hin. exact (proj2 (H i t Hin)).
Defined.

(** C3 on the same example *)
Lemma residual_partition_witness :
  NoDup (index [(0%Z, one_more_time); (1%Z, aerodynamic)]) /\
  NoDup (index [(0%Z, a_mp3); (1%Z, b_mp3)]) /\
  exists pm nm_m nm_c,
    perfect_match artist_title
      [(0%Z, one_more_time); (1%Z, aerodynamic)] [(0%Z, a_mp3); (1%Z, b_mp3)]
    = Some (pm, nm_m, nm_c) /\
    Permutation [0%Z; 1%Z]
      (index nm_m ++ nodup Z.eq_dec (map saved_index_mixxx pm)) /\
    Permutation [0%Z; 1%Z]
      (index nm_c ++ nodup Z.eq_dec (map saved_index_custom pm)).
Proof.
  assert (N : NoDup [0%Z; 1%Z]).
  { repeat constructor; simpl; lia. }
  split; [exact N|]. split; [exact N|].
  exact (residual_partition artist_title
           [(0%Z, one_more_time); (1%Z, aerodynamic)]
           [(0%Z, a_mp3); (1%Z, b_mp3)] N N).
Defined.

(** C5 on the second example of the specification: one proposal; the
    operator types "x", then "7", then "0". *)
Lemma disambiguation_contract_witness :
  1 <= List.length (example_closest aerodynamic [(1%Z, b_mp3)] artist_title 3 5) /\
  Forall (fun idx => loc [(0%Z, a_mp3); (1%Z, b_mp3)] idx <> None)
         (example_closest aerodynamic [(1%Z, b_mp3)] artist_title 3 5) /\
  exists w',
    stdin w' = [] /\
    choices_asked (console w') = 3 /\
    close_match artist_title 3 5 example_closest
                [(0%Z, a_mp3); (1%Z, b_mp3)] [(1%Z, aerodynamic)] [(1%Z, b_mp3)]
                1%Z aerodynamic [] (fresh ["x"; "7"; "0"])
    = (Returned [{| library_idx := 2; location_idx := 20; path := "/b.mp3" |}],
       w').
Proof.
  assert (H1 : 1 <= List.length
                      (example_closest aerodynamic [(1%Z, b_mp3)] artist_title 3 5)).
  { vm_compute. lia. }
  assert (H2 : Forall (fun idx => loc [(0%Z, a_mp3); (1%Z, b_mp3)] idx <> None)
                      (example_closest aerodynamic [(1%Z, b_mp3)] artist_title 3 5)).
  { vm_compute. repeat constructor. discriminate. }
  split; [exact H1|]. split; [exact H2|].
  destruct (proj2 (disambiguation_contract artist_title 3 5 example_closest
                     [(0%Z, a_mp3); (1%Z, b_mp3)] [(1%Z, aerodynamic)]
                     [(1%Z, b_mp3)] 1%Z aerodynamic [] H1 H2)
                  (fresh ["x"; "7"; "0"]) ["x"; "7"] "0" [] eq_refl)
    as [w' [Hs [_ [Hc [_ Hi]]]]].
  - repeat constructor.
  - reflexivity.
  - exists w'. split; [exact Hs|]. split.
    + rewrite Hc. vm_compute. reflexivity.
    + exact (Hi 0 1%Z aerodynamic b_mp3 eq_refl eq_refl eq_refl eq_refl).
Defined.

(** C6 on two unmatched truth records given in descending order of title *)
Lemma evaluation_order_sorted_witness :
  [(0%Z, aerodynamik); (1%Z, aerodynamic)] <> [] /\
  exists done todo,
    sort_values (map_rows (fillna_mixxx artist_title)
                          [(0%Z, aerodynamik); (1%Z, aerodynamic)])
    = done ++ todo /\
    evaluated
      (console
         (snd (close_stage artist_title 3 5 example_closest [(0%Z, b_mp3)] []
                 [(0%Z, aerodynamik); (1%Z, aerodynamic)] [(0%Z, b_mp3)]
                 (fresh ["0"; ""]))))
    = index done /\
    index done = [1%Z; 0%Z].
Proof.
  assert (Hne : [(0%Z, aerodynamik); (1%Z, aerodynamic)] <> []) by discriminate.
  split; [exact Hne|].
  destruct (evaluation_order_sorted artist_title 3 5 example_closest
              [(0%Z, b_mp3)] []
              [(0%Z, aerodynamik); (1%Z, aerodynamic)] [(0%Z, b_mp3)]
              (fresh ["0"; ""]) _ _ Hne (surjective_pairing _))
    as [_ [_ [done [todo [E1 [E2 _]]]]]].
  exists done, todo. split; [exact E1|]. split; [exact E2|].
  change (index done)
    with (evaluated (console (fresh ["0"; ""])) ++ index done).
  rewrite <- E2. vm_compute. reflexivity.
Defined.


(** C1 as amended, on two unmatched truth records and one matched exactly *)
Lemma merge_rows_per_truth_record_witness :
  NoDup (index [(0%Z, one_more_time); (1%Z, aerodynamic); (2%Z, aerodynamik)]) /\
  exists table prov,
    custom_db
      (snd (example_run
              [(0%Z, one_more_time); (1%Z, aerodynamic); (2%Z, aerodynamik)]
              [(0%Z, a_mp3); (1%Z, b_mp3)] (fresh ["y"; "0"; ""])))
    = Some table /\
    Forall2 (row_of_truth
               [(0%Z, one_more_time); (1%Z, aerodynamic); (2%Z, aerodynamik)])
            prov table /\
    NoDup prov.
Proof.
  assert (N : NoDup (index [(0%Z, one_more_time); (1%Z, aerodynamic);
                            (2%Z, aerodynamik)])).
  { repeat constructor; simpl; lia. }
  split; [exact N|].
  destruct (merge_rows_per_truth_record artist_title 3 5 example_closest
              [(0%Z, one_more_time); (1%Z, aerodynamic); (2%Z, aerodynamik)]
              [(0%Z, a_mp3); (1%Z, b_mp3)] (fresh ["y"; "0"; ""]) tt
              (snd (example_run
                      [(0%Z, one_more_time); (1%Z, aerodynamic); (2%Z, aerodynamik)]
                      [(0%Z, a_mp3); (1%Z, b_mp3)] (fresh ["y"; "0"; ""]))) N)
    as [table [prov [Hdb [F [_ Hnd]]]]].
  - vm_compute. reflexivity.
  - exists table, prov. split; [exact Hdb|]. split; [exact F|].
    apply Hnd. intros i t Hin. simpl in Hin.
    destruct Hin as [E | [E | [E | []]]]; injection E as <- <-;
      vm_compute; lia.
Defined.

(** C9 as amended, on the first example of the specification *)
Lemma empty_residual_run_witness :
  [(0%Z, one_more_time)] <> [] /\
  perfect_match artist_title [(0%Z, one_more_time)] [(0%Z, a_mp3)]
  = Some ([((0%Z, a_mp3), (0%Z, one_more_time))], [], []) /\
  example_run [(0%Z, one_more_time)] [(0%Z, a_mp3)] (fresh ["y"])
  = (Returned tt,
     {| stdin := [];
        console := [Asked AskRefreshed; Printed (MsgTableUsed [row_a])];
        custom_db := Some [row_a] |}).
Proof.
  assert (Hne : [(0%Z, one_more_time)] <> []) by discriminate.
  assert (Hpm : perfect_match artist_title [(0%Z, one_more_time)] [(0%Z, a_mp3)]
                = Some ([((0%Z, a_mp3), (0%Z, one_more_time))], [], [])).
  { vm_compute. reflexivity. }
  split; [exact Hne|]. split; [exact Hpm|].
  exact (proj2 (proj2 (empty_residual_run artist_title 3 5 example_closest)
                      [(0%Z, one_more_time)] [(0%Z, a_mp3)] _ _
                      (fresh ["y"]) [] Hne Hpm eq_refl)).
Defined.

(** C4 on the second example of the specification with a second truth record:
    both truth records are given the path of the one other record. *)
Lemma other_record_reused_witness :
  exists w',
    example_run [(0%Z, aerodynamic); (1%Z, aerodynamik)] [(0%Z, b_mp3)]
                (fresh ["y"; "0"; "0"]) = (Returned tt, w') /\
    custom_db w' =
    Some [with_file_columns
            {| library_idx := 2; location_idx := 20; path := "/b.mp3" |};
          with_file_columns
            {| library_idx := 3; location_idx := 30; path := "/b.mp3" |}].
Proof.
  destruct (other_record_reused artist_title 3 5 example_closest
              0%Z 1%Z 0%Z aerodynamic aerodynamik b_mp3
              (fresh ["y"; "0"; "0"]) [])
    as [_ [w' [Hrun [_ [_ Hdb]]]]].
  - lia.
  - intros H. specialize (H "title" (or_intror (or_introl eq_refl))).
    discriminate H.
  - intros H. specialize (H "title" (or_intror (or_introl eq_refl))).
    discriminate H.
  - reflexivity.
  - vm_compute. reflexivity.
  - vm_compute. reflexivity.
  - reflexivity.
  - exists w'. split; [exact Hrun | exact Hdb].
Defined.

(** C10 as amended, on a module with an integer setting, a float setting
    and its own name *)
Lemma confirm_config_contract_witness :
  In ("N_SIMILAR_TRACK_PROPOSAL", VInt 5)
     [("N_SIMILAR_TRACK_PROPOSAL", VInt 5);
      ("THRESHOLD_NAME_SIMILARITY", VFloat (FFinite false "3" 0));
      ("__name__", VStr "config")] /\
  eligible ("N_SIMILAR_TRACK_PROPOSAL", VInt 5) = true /\
  confirm_config "config"
    [("N_SIMILAR_TRACK_PROPOSAL", VInt 5);
     ("THRESHOLD_NAME_SIMILARITY", VFloat (FFinite false "3" 0));
     ("__name__", VStr "config")] (fresh ["no"])
  = (SystemExit 1,
     {| stdin := [];
        console := [Printed (MsgConfigHeader "config");
                    Printed (MsgParam "N_SIMILAR_TRACK_PROPOSAL" "5");
                    Asked AskSettings];
        custom_db := None |}).
Proof.
  split; [left; reflexivity|]. split; [reflexivity|].
  exact (proj2 (proj2 (proj2 (confirm_config_contract "config"
           [("N_SIMILAR_TRACK_PROPOSAL", VInt 5);
            ("THRESHOLD_NAME_SIMILARITY", VFloat (FFinite false "3" 0));
            ("__name__", VStr "config")])))
         ("N_SIMILAR_TRACK_PROPOSAL", VInt 5) (or_introl eq_refl) eq_refl
         (fresh ["no"]) "no" [] eq_refl).
Defined.

(** * Further properties of the program *)

(** ** What the steps leave alone *)

Lemma bind_cases (A B : Type) (c : IO A) (k : A -> IO B) w out w' :
  bind c k w = (out, w') ->
  (exists a w1, c w = (Returned a, w1) /\ k a w1 = (out, w')) \/
  (exists s, c w = (SystemExit s, w') /\ out = SystemExit s) \/
  (exists e, c w = (Raised e, w') /\ out = Raised e).
Proof.
  unfold bind. destruct (c w) as [[a|s|e] w1]; intros H.
  - left. exists a, w1. auto.
  - right. left. injection H as <- <-. exists s. auto.
  - right. right. injection H as <- <-. exists e. auto.
Qed.

Lemma preserves_ret (X A : Type) (f : World -> X) (a : A) : preserves f (ret a).
Proof. intros w out w' [= <- <-]. reflexivity. Qed.

Lemma preserves_lift (X A : Type) (f : World -> X) (e : Exception) (o : option A) :
  preserves f (lift e o).
Proof. destruct o; intros w out w' [= <- <-]; reflexivity. Qed.

Lemma preserves_bind (X A B : Type) (f : World -> X) (c : IO A) (k : A -> IO B) :
  preserves f c -> (forall a, preserves f (k a)) -> preserves f (bind c k).
Proof.
  intros Hc Hk w out w' H. apply bind_cases in H.
  destruct H as [[a [w1 [H1 H2]]] | [[s [H1 _]] | [e [H1 _]]]].
  - rewrite (Hk a _ _ _ H2). exact (Hc _ _ _ H1).
  - exact (Hc _ _ _ H1).
  - exact (Hc _ _ _ H1).
Qed.

Lemma db_print (m : Message) : preserves custom_db (print m).
Proof. intros w out w' [= <- <-]. reflexivity. Qed.

Lemma db_input (q : Question) : preserves custom_db (input q).
Proof.
  intros w out w'. unfold input. destruct (stdin w); intros [= <- <-]; reflexivity.
Qed.

Lemma db_choose (n : nat) : preserves custom_db (choose n).
Proof.
  unfold choose. intros w out w'.
  generalize (stdin w) as pending. intros pending. revert w.
  induction pending as [|a l IH]; intros w; simpl.
  - intros [= <- <-]. reflexivity.
  - destruct (accepted n a).
    + intros [= <- <-]. reflexivity.
    + intros H. apply IH in H. exact H.
Qed.

Lemma db_print_candidates (cols : list string) df_custom l :
  forall i, preserves custom_db (print_candidates cols df_custom i l).
Proof.
  induction l as [|idx l IH]; intros i; simpl.
  - apply preserves_ret.
  - apply preserves_bind; [apply preserves_lift|]. intros row.
    apply preserves_bind; [apply db_print|]. intros _. apply IH.
Qed.

Lemma db_record_answer df_mixxx_nm df_custom_nm idx_mixxx close_indices ans acc :
  preserves custom_db
    (record_answer df_mixxx_nm df_custom_nm idx_mixxx close_indices ans acc).
Proof.
  unfold record_answer. destruct ans; [apply preserves_ret|].
  repeat (apply preserves_bind; [apply preserves_lift|]; intro).
  apply preserves_ret.
Qed.

Section Preserved.

Variable MERGE_COLS : list string.
Variable THRESHOLD_NAME_SIMILARITY : nat.
Variable N_SIMILAR_TRACK_PROPOSAL : nat.
Variable closest :
  MixxxTrack -> DataFrame CustomTrack -> list string -> nat -> nat -> list Index.

Lemma db_close_match df_custom df_mixxx_nm df_custom_nm idx_mixxx row acc :
  preserves custom_db
    (close_match MERGE_COLS THRESHOLD_NAME_SIMILARITY N_SIMILAR_TRACK_PROPOSAL
                 closest df_custom df_mixxx_nm df_custom_nm idx_mixxx row acc).
Proof.
  unfold close_match. apply preserves_bind; [apply db_print|]. intros _.
  cbv zeta.
  destruct (closest row df_custom_nm MERGE_COLS THRESHOLD_NAME_SIMILARITY
                    N_SIMILAR_TRACK_PROPOSAL) as [|i l].
  - apply preserves_bind; [apply db_print|]. intros _. apply preserves_ret.
  - apply preserves_bind; [apply db_print_candidates|]. intros _.
    apply preserves_bind; [apply db_choose|]. intros ans.
    apply db_record_answer.
Qed.

Lemma db_close_matches df_custom df_mixxx_nm df_custom_nm rows :
  forall acc,
    preserves custom_db
      (close_matches MERGE_COLS THRESHOLD_NAME_SIMILARITY N_SIMILAR_TRACK_PROPOSAL
                     closest df_custom df_mixxx_nm df_custom_nm rows acc).
Proof.
  induction rows as [|[idx row] rows IH]; intros acc; simpl.
  - apply preserves_ret.
  - apply preserves_bind; [apply db_close_match|]. intros l. apply IH.
Qed.

Lemma db_close_stage df_custom pm nm_m nm_c :
  preserves custom_db
    (close_stage MERGE_COLS THRESHOLD_NAME_SIMILARITY N_SIMILAR_TRACK_PROPOSAL
                 closest df_custom pm nm_m nm_c).
Proof.
  unfold close_stage. destruct nm_m as [|r0 rs]; [apply preserves_ret|].
  apply preserves_bind; [apply db_print|]. intros _.
  apply preserves_bind; [apply db_close_matches|]. intros l.
  apply preserves_ret.
Qed.

(** All or nothing.  Whatever the collections and whatever the operator
    types, a run that does not return (it exits or raises, be it at the
    first question or in the middle of the choices) leaves the stored table
    as it was; a run that returns has replaced it. *)
Theorem table_written_only_on_return (df_mixxx : DataFrame MixxxTrack)
        (df_custom : DataFrame CustomTrack) (w : World) out w' :
  fix_with_clementine_db MERGE_COLS THRESHOLD_NAME_SIMILARITY
    N_SIMILAR_TRACK_PROPOSAL closest df_mixxx df_custom w = (out, w') ->
  ((forall u, out <> Returned u) -> custom_db w' = custom_db w) /\
  (forall u, out = Returned u -> exists table, custom_db w' = Some table).
Proof.
  intros H. split.
  - intros Hout. unfold fix_with_clementine_db in H.
    destruct df_mixxx as [|r0 rs].
    + rewrite bind_print in H. injection H as _ <-. reflexivity.
    + apply bind_cases in H.
      destruct H as [[answer [w1 [H1 H2]]] | [[s [H1 _]] | [e [H1 _]]]];
        try exact (db_input _ _ _ _ H1).
      rewrite <- (db_input _ _ _ _ H1).
      destruct (negb (answer =? "y")%string).
      * rewrite bind_print in H2. injection H2 as _ <-. reflexivity.
      * apply bind_cases in H2.
        destruct H2 as [[[[pm nm_m] nm_c] [w2 [H2 H3]]] | [[s [H2 _]] | [e [H2 _]]]];
          try exact (preserves_lift _ _ custom_db _ _ _ _ _ H2).
        rewrite <- (preserves_lift _ _ custom_db _ _ _ _ _ H2).
        apply bind_cases in H3.
        destruct H3 as [[final [w3 [H3 H4]]] | [[s [H3 _]] | [e [H3 _]]]];
          try exact (db_close_stage _ _ _ _ _ _ _ H3).
        unfold bind, write_df_to_table, print in H4. simpl in H4.
        injection H4 as <- _. destruct (Hout tt eq_refl).
  - intros u ->. apply run_Returned in H.
    destruct H as [rest [pm [nm_m [nm_c [final [w1 [_ [_ [_ [_ [Hdb _]]]]]]]]]]].
    eexists. exact Hdb.
Qed.

(** The refresh question.  With a truth collection that is not empty the run
    first asks whether the player's library was refreshed.  At the end of the
    input it raises EOFError; on any answer other than "y" it prints its
    reminder and exits with status 0, having read that one line, evaluated no
    row and written nothing. *)
Theorem refresh_not_confirmed (df_mixxx : DataFrame MixxxTrack)
        (df_custom : DataFrame CustomTrack) (w : World) :
  df_mixxx <> [] ->
  (stdin w = [] ->
   fix_with_clementine_db MERGE_COLS THRESHOLD_NAME_SIMILARITY
     N_SIMILAR_TRACK_PROPOSAL closest df_mixxx df_custom w
   = (Raised EOFError,
      {| stdin := []; console := console w ++ [Asked AskRefreshed];
         custom_db := custom_db w |})) /\
  (forall answer rest,
      stdin w = answer :: rest -> answer <> "y" ->
      fix_with_clementine_db MERGE_COLS THRESHOLD_NAME_SIMILARITY
        N_SIMILAR_TRACK_PROPOSAL closest df_mixxx df_custom w
      = (SystemExit 0,
         {| stdin := rest;
            console := console w ++ [Asked AskRefreshed; Printed MsgWellDoIt];
            custom_db := custom_db w |})).
Proof.
  intros Hne. unfold fix_with_clementine_db.
  destruct df_mixxx as [|r0 rs]; [congruence|]. split.
  - intros Hin. unfold bind, input, emit. rewrite Hin. reflexivity.
  - intros answer rest Hin Hans. unfold bind at 1. unfold input. rewrite Hin.
    rewrite (proj2 (String.eqb_neq answer "y") Hans).
    change (negb false) with true. cbv iota.
    rewrite bind_print. unfold exit, emit. simpl. rewrite <- app_assoc.
    reflexivity.
Qed.

End Preserved.

(** ** Rows without proposals, and the end of the input *)

Lemma choices_asked_app (l l' : list Event) :
  choices_asked (l ++ l') = choices_asked l + choices_asked l'.
Proof. unfold choices_asked. rewrite filter_app, length_app. reflexivity. Qed.

Lemma choices_asked_skipped (cols : list string) (threshold : nat) rows :
  choices_asked (skipped_lines cols threshold rows) = 0.
Proof.
  unfold skipped_lines. induction rows as [|e rows IH]; [reflexivity|].
  cbn [flat_map]. rewrite choices_asked_app, IH. reflexivity.
Qed.

Lemma choices_asked_repeat (k : nat) :
  choices_asked (repeat (Asked AskChoose) k) = k.
Proof.
  induction k as [|k IH]; [reflexivity|].
  change (repeat (Asked AskChoose) (S k))
    with ([Asked AskChoose] ++ repeat (Asked AskChoose) k).
  rewrite choices_asked_app, IH. reflexivity.
Qed.

Ltac count_questions :=
  rewrite ?choices_asked_app;
  repeat match goal with
         | |- context [choices_asked [?e]] => change (choices_asked [e]) with 0
         end.

Lemma choose_from_exhausted (n : nat) (pending : list string) w :
  stdin w = pending ->
  Forall (fun a => accepted n a = false) pending ->
  choose_from n pending w =
  (Raised EOFError,
   {| stdin := [];
      console := console w ++ repeat (Asked AskChoose) (S (List.length pending));
      custom_db := custom_db w |}).
Proof.
  intros Hs H. revert w Hs. induction H as [|a l Ha _ IH]; intros w Hs; simpl.
  - unfold emit. rewrite Hs. reflexivity.
  - rewrite Ha, IH by reflexivity. simpl. rewrite <- app_assoc. reflexivity.
Qed.

Section Turns.

Variable MERGE_COLS : list string.
Variable THRESHOLD_NAME_SIMILARITY : nat.
Variable N_SIMILAR_TRACK_PROPOSAL : nat.
Variable closest :
  MixxxTrack -> DataFrame CustomTrack -> list string -> nat -> nat -> list Index.

(** Only rejected answers.  When a truth record has proposals, all of them
    rows of the player's table, and every line the operator still types is
    rejected, the turn asks once per line and once more, then raises EOFError:
    no match is recorded and the stored table is untouched. *)
Theorem rejected_until_end_of_input (df_custom : DataFrame CustomTrack)
        (df_mixxx_nm : DataFrame MixxxTrack) (df_custom_nm : DataFrame CustomTrack)
        (idx_mixxx : Index) (row : MixxxTrack) (list_idx_cm : list MatchRow)
        (w : World) :
  let close_indices :=
    closest row df_custom_nm MERGE_COLS THRESHOLD_NAME_SIMILARITY
            N_SIMILAR_TRACK_PROPOSAL in
  close_indices <> [] ->
  Forall (fun idx => loc df_custom idx <> None) close_indices ->
  Forall (fun a => accepted (List.length close_indices) a = false) (stdin w) ->
  exists w',
    close_match MERGE_COLS THRESHOLD_NAME_SIMILARITY N_SIMILAR_TRACK_PROPOSAL
                closest df_custom df_mixxx_nm df_custom_nm idx_mixxx row
                list_idx_cm w = (Raised EOFError, w') /\
    stdin w' = [] /\
    custom_db w' = custom_db w /\
    choices_asked (console w') =
    choices_asked (console w) + S (List.length (stdin w)).
Proof.
  intros close_indices Hne Hshown Hrej.
  rewrite (close_match_proposals MERGE_COLS THRESHOLD_NAME_SIMILARITY
             N_SIMILAR_TRACK_PROPOSAL closest df_custom df_mixxx_nm
             df_custom_nm idx_mixxx row list_idx_cm close_indices eq_refl Hne).
  rewrite bind_print. cbv beta. unfold bind at 1.
  rewrite print_candidates_shown by exact Hshown.
  unfold bind at 1. unfold choose. simpl stdin.
  rewrite choose_from_exhausted by (reflexivity || exact Hrej).
  eexists. split; [reflexivity|]. split; [reflexivity|].
  split; [reflexivity|]. simpl console.
  change (Asked AskChoose :: repeat (Asked AskChoose) (List.length (stdin w)))
    with (repeat (Asked AskChoose) (S (List.length (stdin w)))).
  rewrite !choices_asked_app, choices_asked_repeat.
  assert (Z0 : forall i l, choices_asked (shown MERGE_COLS df_custom i l) = 0).
  { intros i l. revert i. induction l as [|x l IH]; intros i; simpl;
      [reflexivity|]. destruct (loc df_custom x); [|reflexivity].
    change (Printed (MsgCandidate i (custom_key MERGE_COLS c))
              :: shown MERGE_COLS df_custom (S i) l)
      with ([Printed (MsgCandidate i (custom_key MERGE_COLS c))]
              ++ shown MERGE_COLS df_custom (S i) l).
    rewrite choices_asked_app, IH. reflexivity. }
  rewrite Z0.
  change (choices_asked
            [Printed (MsgFinding idx_mixxx (mixxx_key MERGE_COLS row))]) with 0.
  lia.
Qed.

Lemma close_matches_skipped df_custom df_mixxx_nm df_custom_nm rows :
  (forall e, In e rows ->
     closest (snd e) df_custom_nm MERGE_COLS THRESHOLD_NAME_SIMILARITY
             N_SIMILAR_TRACK_PROPOSAL = []) ->
  forall acc w,
    close_matches MERGE_COLS THRESHOLD_NAME_SIMILARITY N_SIMILAR_TRACK_PROPOSAL
                  closest df_custom df_mixxx_nm df_custom_nm rows acc w =
    (Returned acc,
     {| stdin := stdin w;
        console := console w
                     ++ skipped_lines MERGE_COLS THRESHOLD_NAME_SIMILARITY rows;
        custom_db := custom_db w |}).
Proof.
  induction rows as [|[idx row] rows IH]; intros H acc w.
  - simpl. unfold ret. rewrite app_nil_r. destruct w; reflexivity.
  - cbn [close_matches]. unfold bind at 1. unfold close_match.
    rewrite bind_print. cbv beta zeta.
    pose proof (H (idx, row) (or_introl eq_refl)) as Hn. simpl snd in Hn.
    rewrite Hn.
    rewrite bind_print. cbv beta. unfold ret at 1.
    rewrite IH by (intros e He; apply H; right; exact He).
    simpl. rewrite <- !app_assoc. reflexivity.
Qed.

Lemma close_stage_skipped df_custom pm nm_m nm_c :
  (forall i t, In (i, t) nm_m ->
     closest (fillna_mixxx MERGE_COLS t)
             (map_rows (fillna_custom MERGE_COLS) nm_c) MERGE_COLS
             THRESHOLD_NAME_SIMILARITY N_SIMILAR_TRACK_PROPOSAL = []) ->
  forall w, exists w1,
    close_stage MERGE_COLS THRESHOLD_NAME_SIMILARITY N_SIMILAR_TRACK_PROPOSAL
                closest df_custom pm nm_m nm_c w
      = (Returned (map project pm), w1) /\
    stdin w1 = stdin w /\ custom_db w1 = custom_db w /\
    choices_asked (console w1) = choices_asked (console w).
Proof.
  intros Hnone w. unfold close_stage. destruct nm_m as [|n0 ns] eqn:En.
  - exists w. auto.
  - rewrite <- En in *. rewrite bind_print. cbv beta.
    eexists. split; [|split; [|split]].
    + eapply bind_intro.
      * apply close_matches_skipped. intros [i r] He.
        apply (Permutation_in _ (sort_values_perm _)) in He.
        unfold map_rows in He. apply in_map_iff in He.
        destruct He as [[i0 t] [Eq Ht]]. injection Eq as <- <-.
        simpl. apply (Hnone i0 t Ht).
      * cbv beta. rewrite app_nil_r. reflexivity.
    + reflexivity.
    + reflexivity.
    + simpl console. count_questions. rewrite choices_asked_skipped. lia.
Qed.

(** No proposal, no question.  When no unmatched truth record gets a
    proposal, the run, once the operator has answered "y" to the refresh
    question, returns without asking anything else: it has read that one line,
    and the table holds the perfect matches and nothing more. *)
Theorem no_proposal_no_question (df_mixxx : DataFrame MixxxTrack)
        (df_custom : DataFrame CustomTrack) df_custom_pm df_mixxx_nm df_custom_nm
        (w : World) (rest : list string) :
  df_mixxx <> [] ->
  perfect_match MERGE_COLS df_mixxx df_custom
    = Some (df_custom_pm, df_mixxx_nm, df_custom_nm) ->
  (forall i t, In (i, t) df_mixxx_nm ->
     closest (fillna_mixxx MERGE_COLS t)
             (map_rows (fillna_custom MERGE_COLS) df_custom_nm) MERGE_COLS
             THRESHOLD_NAME_SIMILARITY N_SIMILAR_TRACK_PROPOSAL = []) ->
  stdin w = "y" :: rest ->
  exists w',
    fix_with_clementine_db MERGE_COLS THRESHOLD_NAME_SIMILARITY
      N_SIMILAR_TRACK_PROPOSAL closest df_mixxx df_custom w = (Returned tt, w') /\
    stdin w' = rest /\
    choices_asked (console w') = choices_asked (console w) /\
    custom_db w' = Some (map with_file_columns (map project df_custom_pm)).
Proof.
  intros Hne Hpm Hnone Hin. unfold fix_with_clementine_db.
  destruct df_mixxx as [|r0 rs] eqn:E; [congruence|].
  rewrite <- E in Hpm |- *.
  unfold bind at 1. unfold input. rewrite Hin.
  simpl (negb ("y" =? "y")%string). cbv iota. rewrite Hpm. io_steps.
  cbv iota beta.
  destruct (close_stage_skipped df_custom df_custom_pm df_mixxx_nm df_custom_nm
              Hnone
              {| stdin := rest; console := console w ++ [Asked AskRefreshed];
                 custom_db := custom_db w |})
    as [w1 [Hst [Hs [_ Hq]]]].
  eexists. split; [|split; [|split]].
  - eapply bind_intro; [exact Hst|]. cbv beta. reflexivity.
  - exact Hs.
  - simpl console. count_questions. rewrite Hq. simpl console.
    count_questions. lia.
  - reflexivity.
Qed.

Lemma close_matches_length df_custom df_mixxx_nm df_custom_nm rows :
  forall acc w l w',
    close_matches MERGE_COLS THRESHOLD_NAME_SIMILARITY N_SIMILAR_TRACK_PROPOSAL
                  closest df_custom df_mixxx_nm df_custom_nm rows acc w
      = (Returned l, w') ->
    exists new, l = acc ++ new /\ List.length new <= List.length rows.
Proof.
  induction rows as [|[idx row] rows IH]; intros acc w l w'; simpl.
  - intros [= <- <-]. exists []. rewrite app_nil_r. auto.
  - intros H. apply bind_Returned in H. destruct H as [l1 [w1 [H1 H2]]].
    apply IH in H2. destruct H2 as [new [-> Hlen]].
    apply close_match_result in H1. destruct H1 as [-> | [r [_ ->]]].
    + exists new. split; [reflexivity | lia].
    + exists (r :: new). rewrite <- app_assoc. split; [reflexivity|].
      simpl. lia.
Qed.

Lemma stage_turns df_custom pm nm_m nm_c w final w' :
  close_stage MERGE_COLS THRESHOLD_NAME_SIMILARITY N_SIMILAR_TRACK_PROPOSAL
              closest df_custom pm nm_m nm_c w = (Returned final, w') ->
  exists turns cm,
    final = map project pm ++ cm /\
    Subsequence turns (sort_values (map_rows (fillna_mixxx MERGE_COLS) nm_m)) /\
    Forall2 (chosen_row MERGE_COLS THRESHOLD_NAME_SIMILARITY
                        N_SIMILAR_TRACK_PROPOSAL closest
                        (map_rows (fillna_mixxx MERGE_COLS) nm_m)
                        (map_rows (fillna_custom MERGE_COLS) nm_c)) turns cm.
Proof.
  unfold close_stage. destruct nm_m as [|r0 rs] eqn:E.
  - intros [= <- <-]. exists [], []. rewrite app_nil_r.
    repeat split; constructor.
  - rewrite <- E in *. rewrite bind_print. cbv beta. intros H.
    apply bind_Returned in H. destruct H as [cm [w1 [H1 H2]]].
    injection H2 as <- <-. apply close_matches_subseq in H1.
    destruct H1 as [turns [new [-> [S F]]]]. exists turns, new. auto.
Qed.

(** The shape of the table.  The table a run writes starts with the perfect
    matches, one row for each joined pair and in the order of the join.  The
    rows after them are confirmed close matches, at most one for each
    unmatched truth record: they are, one for one and in the same order, the
    rows chosen in some of the turns of the loop, the turns being taken over
    the unmatched truth records in the order of evaluation, so that no turn
    gives two rows; each such row carries the keys of the truth record of its
    turn, as [loc] finds it, and the path of the proposal the operator chose
    for it.  When the labels of the truth records are distinct, so are the
    labels of the turns that gave a row. *)
Theorem table_shape (df_mixxx : DataFrame MixxxTrack)
        (df_custom : DataFrame CustomTrack) (w : World) u w' :
  fix_with_clementine_db MERGE_COLS THRESHOLD_NAME_SIMILARITY
    N_SIMILAR_TRACK_PROPOSAL closest df_mixxx df_custom w = (Returned u, w') ->
  exists df_custom_pm df_mixxx_nm df_custom_nm table,
    perfect_match MERGE_COLS df_mixxx df_custom
      = Some (df_custom_pm, df_mixxx_nm, df_custom_nm) /\
    custom_db w' = Some table /\
    firstn (List.length df_custom_pm) table
      = map with_file_columns (map project df_custom_pm) /\
    List.length df_custom_pm <= List.length table /\
    List.length table <= List.length df_custom_pm + List.length df_mixxx_nm /\
    exists turns list_idx_cm,
      table = map with_file_columns (map project df_custom_pm)
              ++ map with_file_columns list_idx_cm /\
      Subsequence turns
        (sort_values (map_rows (fillna_mixxx MERGE_COLS) df_mixxx_nm)) /\
      Forall2 (chosen_row MERGE_COLS THRESHOLD_NAME_SIMILARITY
                          N_SIMILAR_TRACK_PROPOSAL closest
                          (map_rows (fillna_mixxx MERGE_COLS) df_mixxx_nm)
                          (map_rows (fillna_custom MERGE_COLS) df_custom_nm))
              turns list_idx_cm /\
      (NoDup (index df_mixxx) -> NoDup (index turns)).
Proof.
  intros H. apply run_Returned in H.
  destruct H as [rest [pm [nm_m [nm_c [final [w1 [_ [_ [Hpm [Hst [Hdb _]]]]]]]]]]].
  apply stage_turns in Hst. destruct Hst as [turns [cm [-> [S F]]]].
  assert (Hlen : List.length cm <= List.length nm_m).
  { rewrite <- (Forall2_length F).
    apply Subsequence_length in S.
    rewrite (Permutation_length (sort_values_perm _)) in S.
    unfold map_rows in S. rewrite length_map in S. exact S. }
  exists pm, nm_m, nm_c, (map with_file_columns (map project pm ++ cm)).
  split; [exact Hpm|]. split; [exact Hdb|].
  rewrite !map_app, !length_app, !length_map.
  split; [|split; [lia | split; [lia|]]].
  - replace (List.length pm)
      with (List.length (map with_file_columns (map project pm)) + 0)
      by (rewrite !length_map; lia).
    rewrite firstn_app_2. simpl. rewrite app_nil_r. reflexivity.
  - exists turns, cm. split; [reflexivity|]. split; [exact S|].
    split; [exact F|]. intros N.
    pose proof (perfect_match_inv _ _ _ _ _ _ Hpm) as [_ [Dm _]].
    assert (Hnd : NoDup (index nm_m)).
    { unfold drop in Dm. destruct (forallb _ _); [|discriminate].
      injection Dm as <-. apply NoDup_index_filter. exact N. }
    unfold index. apply (Subsequence_NoDup _ _ _ (Subsequence_map _ _ fst _ _ S)).
    apply (Permutation_NoDup
             (Permutation_sym (Permutation_map fst (sort_values_perm _)))).
    fold (index (map_rows (fillna_mixxx MERGE_COLS) nm_m)).
    rewrite index_map_rows. exact Hnd.
Qed.

(** Close matches come from the two residuals.  Every row of the table after
    the perfect matches carries the keys of an unmatched truth record and the
    path of an unmatched record of the other collection: a record that is in
    no perfect match and that agrees with no truth record on all merge
    fields. *)
Theorem close_matches_from_residuals (df_mixxx : DataFrame MixxxTrack)
        (df_custom : DataFrame CustomTrack) (w : World) u w' :
  fix_with_clementine_db MERGE_COLS THRESHOLD_NAME_SIMILARITY
    N_SIMILAR_TRACK_PROPOSAL closest df_mixxx df_custom w = (Returned u, w') ->
  exists df_custom_pm df_mixxx_nm df_custom_nm cm,
    perfect_match MERGE_COLS df_mixxx df_custom
      = Some (df_custom_pm, df_mixxx_nm, df_custom_nm) /\
    custom_db w'
      = Some (map with_file_columns (map project df_custom_pm ++ cm)) /\
    forall r, In r cm ->
      exists i t j c,
        In (i, t) df_mixxx_nm /\ In (j, c) df_custom_nm /\
        library_idx r = mx_id t /\ location_idx r = mx_location t /\
        path r = file_path c /\
        ~ In j (map saved_index_custom df_custom_pm) /\
        ~ In i (map saved_index_mixxx df_custom_pm) /\
        (forall i' t', In (i', t') df_mixxx -> ~ same_merge_fields MERGE_COLS t' c).
Proof.
  intros H. apply run_table in H.
  destruct H as [pm [nm_m [nm_c [prov [cm [Hpm [Hdb [F _]]]]]]]].
  exists pm, nm_m, nm_c, cm. split; [exact Hpm|]. split; [exact Hdb|].
  intros r Hr.
  destruct (Forall2_In_right _ _ _ _ _ _ F Hr) as [i [_ Hf]].
  apply fuzzy_row_origin in Hf.
  destruct Hf as [t [j [c [Ht [Hc [E1 [E2 E3]]]]]]].
  exists i, t, j, c.
  pose proof (perfect_match_inv _ _ _ _ _ _ Hpm) as [_ [Dm Dc]].
  pose proof (proj1 (in_drop _ _ _ _ (i, t) Dm) Ht) as [_ Ni].
  pose proof (proj1 (in_drop _ _ _ _ (j, c) Dc) Hc) as [_ Nj].
  pose proof (unmatched_custom _ _ _ _ _ _ _ _ Hpm Hc) as [_ Hno].
  repeat split; assumption.
Qed.

End Turns.

(** ** The parameters [confirm_config] shows *)

Lemma insert_param_perm x l : Permutation (insert_param x l) (x :: l).
Proof.
  induction l as [|y l IH]; simpl; [reflexivity|].
  destruct (String.leb (fst x) (fst y)); [reflexivity|].
  rewrite IH. apply perm_swap.
Qed.

Lemma sorted_perm l : Permutation (sorted l) l.
Proof.
  induction l as [|x l IH]; simpl; [reflexivity|].
  rewrite insert_param_perm. apply perm_skip. exact IH.
Qed.

Lemma insert_param_sorted x l :
  StronglySorted name_le l -> StronglySorted name_le (insert_param x l).
Proof.
  induction 1 as [|y l Hs IH Hy]; simpl.
  - constructor; constructor.
  - destruct (String.leb (fst x) (fst y)) eqn:E.
    + constructor; [constructor; assumption|].
      constructor; [exact E|].
      eapply Forall_impl; [|exact Hy].
      intros z Hz. unfold name_le in *. eapply string_leb_trans; eassumption.
    + constructor; [exact IH|].
      apply (Permutation_Forall (Permutation_sym (insert_param_perm x l))).
      constructor; [|exact Hy]. unfold name_le.
      destruct (String.leb_total (fst x) (fst y)); congruence.
Qed.

Lemma sorted_sorted l : StronglySorted name_le (sorted l).
Proof.
  induction l as [|x l IH]; simpl; [constructor|].
  apply insert_param_sorted. exact IH.
Qed.

(** What [confirm_config] shows.  Whatever the outcome, the parameters listed
    are the eligible members of the module, each one once, in ascending order
    of name; the stored table is never touched.  Without parameters the call
    returns and the world is unchanged; with parameters the console gets the
    header, one line for each parameter and the question, and at the end of
    the input the call raises EOFError. *)
Theorem confirm_config_listing (module_name : string)
        (members : list (string * PyValue)) (w : World) out w' :
  confirm_config module_name members w = (out, w') ->
  exists params,
    Permutation params (filter eligible members) /\
    StronglySorted name_le params /\
    custom_db w' = custom_db w /\
    (params = [] -> out = Returned tt /\ w' = w) /\
    (params <> [] ->
     console w' = console w ++ Printed (MsgConfigHeader module_name)
                            :: param_lines params ++ [Asked AskSettings] /\
     (stdin w = [] -> out = Raised EOFError)).
Proof.
  intros H. exists (sorted (filter eligible members)).
  split; [apply sorted_perm|]. split; [apply sorted_sorted|].
  unfold confirm_config in H.
  destruct (sorted (filter eligible members)) as [|p ps] eqn:E.
  - injection H as <- <-. repeat split; congruence.
  - rewrite <- E in *. rewrite bind_print in H. cbv beta in H.
    unfold bind at 1 in H. rewrite print_params_lines in H.
    unfold bind, input in H. simpl stdin in H.
    destruct (stdin w) as [|answer rest] eqn:Es.
    + injection H as <- <-. simpl. repeat rewrite <- app_assoc.
      repeat split; try congruence.
    + destruct (negb (answer =? "y")%string); injection H as <- <-; simpl;
        repeat rewrite <- app_assoc; repeat split; congruence.
Qed.

(** ** Colours, ratings and texts of the export *)

Lemma low_byte_of_low_bits (z k : Z) :
  (0 <= k <= 16)%Z ->
  Z.land (Z.shiftr (z mod 2 ^ 24) k) 255 = Z.land (Z.shiftr z k) 255.
Proof.
  intros Hk. apply Z.bits_inj'. intros n Hn.
  rewrite !Z.land_spec, !Z.shiftr_spec by exact Hn.
  change 255%Z with (Z.ones 8).
  rewrite Z.testbit_ones_nonneg by lia.
  destruct (Z.ltb_spec n 8) as [L | G].
  - rewrite Z.mod_pow2_bits_low by lia. reflexivity.
  - rewrite !andb_false_r. reflexivity.
Qed.

Lemma closest_of_some (r g b : Z) items :
  forall m c,
    (c = None -> m = None) ->
    items <> [] \/ c <> None ->
    exists code,
      closest_of r g b items m c = Some code /\
      (In code (map snd items) \/ c = Some code).
Proof.
  induction items as [|[rb hex] rest IH]; intros m c Hm Hne; simpl.
  - destruct Hne as [Hne | Hne]; [congruence|].
    destruct c as [code|]; [|congruence]. exists code. auto.
  - destruct (below (color_distance r g b rb) m) eqn:B.
    + destruct (IH (Some (color_distance r g b rb)) (Some hex))
        as [code [E [Hin | Hc]]]; [discriminate | right; discriminate | |].
      * exists code. auto.
      * injection Hc as <-. exists hex. auto.
    + destruct c as [c0|].
      * destruct (IH m (Some c0)) as [code [E [Hin | Hc]]];
          [discriminate | right; discriminate | |]; exists code; auto.
      * rewrite (Hm eq_refl) in B. discriminate B.
Qed.

(** The colour of a track.  [rgb_to_rekordbox_color] returns nothing exactly
    for [None] and NaN; for every whole number it returns one of the eight
    codes of the palette, and which one depends on the low 24 bits of the
    number only.  So the [Colour] attribute is set exactly when the row has a
    colour cell holding a number. *)
Theorem rgb_color_defined :
  (forall v, rgb_to_rekordbox_color v = None <-> v = NumNone \/ v = NumNaN) /\
  (forall z, exists code,
      rgb_to_rekordbox_color (NumInt z) = Some code /\
      In code (map snd REKORDBOX_COLORS)) /\
  (forall z, rgb_to_rekordbox_color (NumInt (z mod 2 ^ 24))
             = rgb_to_rekordbox_color (NumInt z)) /\
  (forall color, colour_attribute color <> None <->
                 exists z, color = Some (NumInt z)).
Proof.
  assert (T : forall z, exists code,
             rgb_to_rekordbox_color (NumInt z) = Some code /\
             In code (map snd REKORDBOX_COLORS)).
  { intros z. unfold rgb_to_rekordbox_color.
    destruct (closest_of_some (red z) (green z) (blue z) REKORDBOX_COLORS
                None None (fun _ => eq_refl))
      as [code [E [Hin | Hc]]]; [left; discriminate | | discriminate].
    exists code. auto. }
  split; [|split; [exact T | split]].
  - intros [| |z]; split; intros H.
    + left. reflexivity.
    + reflexivity.
    + right. reflexivity.
    + reflexivity.
    + destruct (T z) as [code [E _]]. rewrite E in H. discriminate H.
    + destruct H as [H | H]; discriminate H.
  - intros z. unfold rgb_to_rekordbox_color, red, green, blue.
    rewrite !low_byte_of_low_bits by lia.
    replace (Z.land (z mod 2 ^ 24) 255) with (Z.land z 255); [reflexivity|].
    pose proof (low_byte_of_low_bits z 0) as L. rewrite !Z.shiftr_0_r in L.
    symmetry. apply L. lia.
  - intros [[| |z]|]; unfold colour_attribute; split; intros H.
    + destruct H. reflexivity.
    + destruct H as [z' H]. discriminate H.
    + destruct H. reflexivity.
    + destruct H as [z' H]. discriminate H.
    + exists z. reflexivity.
    + destruct (T z) as [code [E _]]. rewrite E. discriminate.
    + destruct H. reflexivity.
    + destruct H as [z' H]. discriminate H.
Qed.

Lemma closest_of_nearest (r g b : Z) items :
  forall m c0 result,
    closest_of r g b items (Some m) (Some c0) = result ->
    (result = Some c0 /\
     forall e, In e items -> (m <= color_distance r g b (fst e))%Z) \/
    (exists before rb code after,
        items = before ++ (rb, code) :: after /\
        result = Some code /\
        (color_distance r g b rb < m)%Z /\
        (forall e, In e before ->
                   (color_distance r g b rb < color_distance r g b (fst e))%Z) /\
        (forall e, In e after ->
                   (color_distance r g b rb <= color_distance r g b (fst e))%Z)).
Proof.
  induction items as [|[rb1 h1] rest IH]; intros m c0 result; simpl.
  - intros <-. left. split; [reflexivity | intros e []].
  - destruct (Z.ltb_spec (color_distance r g b rb1) m) as [L | G]; intros H.
    + right. apply IH in H.
      destruct H as [[-> Hall] | [before [rb [code [after [-> [-> [Hlt [Hb Ha]]]]]]]]].
      * exists [], rb1, h1, rest. repeat split; auto. intros e [].
      * exists ((rb1, h1) :: before), rb, code, after.
        repeat split; auto; [lia|].
        intros e [<- | He]; [exact Hlt | apply Hb; exact He].
    + apply IH in H.
      destruct H as [[-> Hall] | [before [rb [code [after [-> [-> [Hlt [Hb Ha]]]]]]]]].
      * left. split; [reflexivity|].
        intros e [<- | He]; [exact G | apply Hall; exact He].
      * right. exists ((rb1, h1) :: before), rb, code, after.
        repeat split; auto.
        intros e [<- | He]; [simpl; lia | apply Hb; exact He].
Qed.

(** The nearest colour.  The code returned for a number is the code of a
    palette colour at the least squared distance from the number's red, green
    and blue components; among palette colours at that least distance it is
    the one written first. *)
Theorem rgb_color_nearest (z : Z) (code : string) :
  rgb_to_rekordbox_color (NumInt z) = Some code ->
  exists before rb after,
    REKORDBOX_COLORS = before ++ (rb, code) :: after /\
    (forall e, In e before ->
       (color_distance (red z) (green z) (blue z) rb
        < color_distance (red z) (green z) (blue z) (fst e))%Z) /\
    (forall e, In e after ->
       (color_distance (red z) (green z) (blue z) rb
        <= color_distance (red z) (green z) (blue z) (fst e))%Z).
Proof.
  unfold rgb_to_rekordbox_color.
  change REKORDBOX_COLORS
    with (((255, 0, 0)%Z, "0xFF0000") :: List.tl REKORDBOX_COLORS).
  generalize (List.tl REKORDBOX_COLORS) as others. intros others.
  cbn [closest_of below]. intros H. apply closest_of_nearest in H.
  destruct H as [[E Hall] | [before [rb [c [after [-> [E [Hlt [Hb Ha]]]]]]]]].
  - injection E as <-. exists [], (255, 0, 0)%Z, others.
    split; [reflexivity|]. split; [intros e [] | exact Hall].
  - injection E as <-.
    exists (((255, 0, 0)%Z, "0xFF0000") :: before), rb, after.
    split; [reflexivity|]. split; [|exact Ha].
    intros e [<- | He]; [exact Hlt | apply Hb; exact He].
Qed.

(** The palette is kept.  A number whose red, green and blue components are
    those of a palette colour gets the code of that colour. *)
Theorem palette_color_kept (z : Z) (rb : Z * Z * Z) (code : string) :
  In (rb, code) REKORDBOX_COLORS ->
  (red z, green z, blue z) = rb ->
  rgb_to_rekordbox_color (NumInt z) = Some code.
Proof.
  intros Hin E. unfold rgb_to_rekordbox_color.
  destruct rb as [[r' g'] b']. simpl in Hin.
  repeat (destruct Hin as [Hin | Hin];
          [injection Hin as <- <- <- <-; injection E as Er Eg Eb;
           rewrite Er, Eg, Eb; reflexivity|]).
  destruct Hin.
Qed.

Lemma without_spaces_not_empty (text : string) :
  without_spaces text <> "" <->
  exists c, In c (list_ascii_of_string text) /\ c <> " "%char.
Proof.
  induction text as [|a text IH]; simpl.
  - split; [intros H; destruct H; reflexivity | intros [c [[] _]]].
  - destruct (Ascii.eqb_spec a " "%char) as [->|N].
    + rewrite IH. split.
      * intros [c [Hc Hn]]. exists c. auto.
      * intros [c [[<- | Hc] Hn]]; [destruct Hn; reflexivity|].
        exists c. auto.
    + split; [|discriminate]. intros _. exists a. auto.
Qed.

(** Texts that count.  [is_non_empty_string] holds exactly of the strings
    that have a character other than the space; a string of spaces, the empty
    string and every value that is not a string fail it. *)
Theorem is_non_empty_string_spec (s : PyValue) :
  is_non_empty_string s = true <->
  exists text, s = VStr text /\
               exists c, In c (list_ascii_of_string text) /\ c <> " "%char.
Proof.
  destruct s as [| b | z | f | text | printed];
    try (split; [discriminate | intros [t [E _]]; discriminate]).
  unfold is_non_empty_string. rewrite negb_true_iff, String.eqb_neq.
  rewrite without_spaces_not_empty. split.
  - intros H. exists text. auto.
  - intros [t [E H]]. injection E as <-. exact H.
Qed.

(** The rating of a track.  The lookup in [RATING_MAPING] succeeds exactly
    for the ratings 0 to 5, and gives 51 times the rating; for any other
    rating it is a KeyError. *)
Theorem rating_lookup_spec (rating value : Z) :
  rating_lookup rating = Some value <->
  (0 <= rating <= 5)%Z /\ value = (51 * rating)%Z.
Proof.
  unfold rating_lookup, RATING_MAPING. cbn [find fst snd].
  repeat match goal with
         | |- context [Z.eqb ?k rating] =>
             destruct (Z.eqb_spec k rating) as [<- | ?];
             [split; [intros [= <-]; lia | intros [_ ->]; reflexivity]|]
         end.
  split; [discriminate | lia].
Qed.

(** ** Where the first bar starts *)

Section TempoFacts.

Variable Seconds : Type.
Variable Position : Type.
Variable beatgrid_start_sec : Seconds.
Variable guess_inizio_sec : Position -> Seconds.

Lemma no_cue_numbered (n : Z) (cue_rows : list (CueRow Position)) :
  existsb (Z.eqb n) (map fst cue_rows) = false <-> cues_numbered n cue_rows = [].
Proof.
  unfold cues_numbered. induction cue_rows as [|cue rows IH]; simpl.
  - tauto.
  - destruct (Z.eqb n (fst cue)); simpl; [split; discriminate | exact IH].
Qed.

(** The start of the first bar.  It is taken from the beat grid when the
    configured hot cue number is zero or negative, or when the track has no
    hot cue of that number (the cues are numbered from 0, the configuration
    from 1); from the position of the hot cue of that number when the track
    has exactly one; and when the track has two or more hot cues of that
    number the assertion of line 116 fails. *)
Theorem bar_start_cases (index_cue_bar_start : Z)
        (cue_rows : list (CueRow Position)) :
  let numbered := cues_numbered (index_cue_bar_start - 1) cue_rows in
  ((index_cue_bar_start <= 0)%Z \/ numbered = [] ->
   inizio beatgrid_start_sec guess_inizio_sec index_cue_bar_start cue_rows
   = Some beatgrid_start_sec) /\
  (forall cue,
      (0 < index_cue_bar_start)%Z -> numbered = [cue] ->
      inizio beatgrid_start_sec guess_inizio_sec index_cue_bar_start cue_rows
      = Some (guess_inizio_sec (snd cue)) /\
      In cue cue_rows /\ fst cue = (index_cue_bar_start - 1)%Z) /\
  ((0 < index_cue_bar_start)%Z -> 2 <= List.length numbered ->
   inizio beatgrid_start_sec guess_inizio_sec index_cue_bar_start cue_rows
   = None).
Proof.
  intros numbered. unfold inizio. fold numbered.
  split; [|split].
  - intros [H | H].
    + rewrite (proj2 (Z.leb_le _ _) H). reflexivity.
    + rewrite (proj2 (no_cue_numbered _ _) H), orb_true_r. reflexivity.
  - intros cue Hpos Hn.
    rewrite (proj2 (Z.leb_gt _ _) Hpos).
    assert (Hin : In cue numbered) by (rewrite Hn; left; reflexivity).
    unfold numbered, cues_numbered in Hin. apply filter_In in Hin.
    destruct Hin as [Hin Heq]. apply Z.eqb_eq in Heq.
    destruct (existsb (Z.eqb (index_cue_bar_start - 1)) (map fst cue_rows)) eqn:E.
    + simpl. rewrite Hn. auto.
    + apply no_cue_numbered in E. fold numbered in E. congruence.
  - intros Hpos Hlen.
    rewrite (proj2 (Z.leb_gt _ _) Hpos).
    destruct (existsb (Z.eqb (index_cue_bar_start - 1)) (map fst cue_rows)) eqn:E.
    + simpl. destruct numbered as [|c1 [|c2 l]]; simpl in Hlen; try lia.
      reflexivity.
    + apply no_cue_numbered in E. fold numbered in E. rewrite E in Hlen.
      simpl in Hlen. lia.
Qed.

End TempoFacts.

(** * The further properties on examples *)

(** The input ends while the operator is asked to choose: nothing is stored. *)
Lemma table_written_only_on_return_witness :
  fst (example_run [(0%Z, aerodynamic)] [(0%Z, b_mp3)] (fresh ["y"; "x"]))
  = Raised EOFError /\
  custom_db (snd (example_run [(0%Z, aerodynamic)] [(0%Z, b_mp3)]
                              (fresh ["y"; "x"]))) = None.
Proof.
  split; [vm_compute; reflexivity|].
  refine (proj1 (table_written_only_on_return artist_title 3 5 example_closest
                   [(0%Z, aerodynamic)] [(0%Z, b_mp3)] (fresh ["y"; "x"])
                   (Raised EOFError) _ _) _).
  - vm_compute. reflexivity.
  - intros u. discriminate.
Defined.

Lemma refresh_not_confirmed_witness :
  [(0%Z, aerodynamic)] <> [] /\
  example_run [(0%Z, aerodynamic)] [(0%Z, b_mp3)] (fresh ["no"; "0"])
  = (SystemExit 0,
     {| stdin := ["0"];
        console := [Asked AskRefreshed; Printed MsgWellDoIt];
        custom_db := None |}).
Proof.
  assert (Hne : [(0%Z, aerodynamic)] <> []) by discriminate.
  split; [exact Hne|].
  refine (proj2 (refresh_not_confirmed artist_title 3 5 example_closest
                   [(0%Z, aerodynamic)] [(0%Z, b_mp3)] (fresh ["no"; "0"]) Hne)
                "no" ["0"] eq_refl _).
  discriminate.
Defined.

Lemma rejected_until_end_of_input_witness :
  example_closest aerodynamic [(0%Z, b_mp3)] artist_title 3 5 <> [] /\
  exists w',
    close_match artist_title 3 5 example_closest [(0%Z, b_mp3)]
                [(0%Z, aerodynamic)] [(0%Z, b_mp3)] 0%Z aerodynamic []
                (fresh ["1"; "00"; " 0"; "yes"]) = (Raised EOFError, w') /\
    stdin w' = [] /\
    choices_asked (console w') = 5.
Proof.
  assert (Hne : example_closest aerodynamic [(0%Z, b_mp3)] artist_title 3 5 <> []).
  { vm_compute. discriminate. }
  split; [exact Hne|].
  destruct (rejected_until_end_of_input artist_title 3 5 example_closest
              [(0%Z, b_mp3)] [(0%Z, aerodynamic)] [(0%Z, b_mp3)] 0%Z
              aerodynamic [] (fresh ["1"; "00"; " 0"; "yes"]) Hne)
    as [w' [H [Hs [_ Hq]]]].
  - vm_compute. repeat constructor. discriminate.
  - vm_compute. repeat constructor.
  - exists w'. split; [exact H|]. split; [exact Hs | exact Hq].
Defined.

Lemma no_proposal_no_question_witness :
  exists w',
    example_run [(0%Z, one_more_time); (1%Z, mixxx_track 4 40 "Justice" "Genesis")]
                [(0%Z, a_mp3); (1%Z, b_mp3)] (fresh ["y"; "0"])
    = (Returned tt, w') /\
    stdin w' = ["0"] /\
    choices_asked (console w') = 0 /\
    custom_db w' = Some [row_a].
Proof.
  refine (no_proposal_no_question artist_title 3 5 example_closest
            [(0%Z, one_more_time); (1%Z, mixxx_track 4 40 "Justice" "Genesis")]
            [(0%Z, a_mp3); (1%Z, b_mp3)]
            [((0%Z, a_mp3), (0%Z, one_more_time))]
            [(1%Z, mixxx_track 4 40 "Justice" "Genesis")] [(1%Z, b_mp3)]
            (fresh ["y"; "0"]) ["0"] _ _ _ eq_refl).
  - discriminate.
  - vm_compute. reflexivity.
  - intros i t [E | []]. injection E as <- <-. vm_compute. reflexivity.
Defined.

Lemma table_shape_witness :
  exists pm nm_m nm_c table,
    perfect_match artist_title
      [(0%Z, one_more_time); (1%Z, aerodynamic); (2%Z, aerodynamik)]
      [(0%Z, a_mp3); (1%Z, b_mp3)] = Some (pm, nm_m, nm_c) /\
    custom_db
      (snd (example_run
              [(0%Z, one_more_time); (1%Z, aerodynamic); (2%Z, aerodynamik)]
              [(0%Z, a_mp3); (1%Z, b_mp3)] (fresh ["y"; "0"; ""])))
    = Some table /\
    List.length pm <= List.length table <= List.length pm + List.length nm_m /\
    exists turns list_idx_cm,
      table = map with_file_columns (map project pm)
              ++ map with_file_columns list_idx_cm /\
      Subsequence turns (sort_values (map_rows (fillna_mixxx artist_title) nm_m)) /\
      List.length list_idx_cm = List.length turns.
Proof.
  destruct (table_shape artist_title 3 5 example_closest
              [(0%Z, one_more_time); (1%Z, aerodynamic); (2%Z, aerodynamik)]
              [(0%Z, a_mp3); (1%Z, b_mp3)] (fresh ["y"; "0"; ""]) tt
              (snd (example_run
                      [(0%Z, one_more_time); (1%Z, aerodynamic); (2%Z, aerodynamik)]
                      [(0%Z, a_mp3); (1%Z, b_mp3)] (fresh ["y"; "0"; ""]))))
    as [pm [nm_m [nm_c [table [Hpm [Hdb [_ [H1 [H2 [turns [cm [Ht [S [F _]]]]]]]]]]]]]].
  - vm_compute. reflexivity.
  - exists pm, nm_m, nm_c, table. split; [exact Hpm|]. split; [exact Hdb|].
    split; [split; assumption|]. exists turns, cm.
    split; [exact Ht|]. split; [exact S|]. symmetry. exact (Forall2_length F).
Defined.

Lemma close_matches_from_residuals_witness :
  exists pm nm_m nm_c cm,
    perfect_match artist_title
      [(0%Z, one_more_time); (1%Z, aerodynamic)]
      [(0%Z, a_mp3); (1%Z, b_mp3)] = Some (pm, nm_m, nm_c) /\
    custom_db
      (snd (example_run [(0%Z, one_more_time); (1%Z, aerodynamic)]
                        [(0%Z, a_mp3); (1%Z, b_mp3)] (fresh ["y"; "0"])))
    = Some (map with_file_columns (map project pm ++ cm)) /\
    forall r, In r cm ->
      exists j c, In (j, c) nm_c /\ path r = file_path c /\
                  ~ In j (map saved_index_custom pm).
Proof.
  destruct (close_matches_from_residuals artist_title 3 5 example_closest
              [(0%Z, one_more_time); (1%Z, aerodynamic)]
              [(0%Z, a_mp3); (1%Z, b_mp3)] (fresh ["y"; "0"]) tt
              (snd (example_run [(0%Z, one_more_time); (1%Z, aerodynamic)]
                                [(0%Z, a_mp3); (1%Z, b_mp3)] (fresh ["y"; "0"]))))
    as [pm [nm_m [nm_c [cm [Hpm [Hdb H]]]]]].
  - vm_compute. reflexivity.
  - exists pm, nm_m, nm_c, cm. split; [exact Hpm|]. split; [exact Hdb|].
    intros r Hr. destruct (H r Hr) as [i [t [j [c [_ [Hc [_ [_ [Hp [Hj _]]]]]]]]]].
    exists j, c. auto.
Defined.

Lemma confirm_config_listing_witness :
  exists params,
    Permutation params
      [("beats_per_bar", VInt 4); ("add_crates_as_playlist", VBool true)] /\
    StronglySorted name_le params /\
    fst (confirm_config "config"
           [("__name__", VStr "config"); ("beats_per_bar", VInt 4);
            ("mixxx_db", VStr "mixxxdb.sqlite");
            ("add_crates_as_playlist", VBool true)] (fresh [])) = Raised EOFError.
Proof.
  destruct (confirm_config_listing "config"
              [("__name__", VStr "config"); ("beats_per_bar", VInt 4);
               ("mixxx_db", VStr "mixxxdb.sqlite");
               ("add_crates_as_playlist", VBool true)] (fresh []) _ _
              (surjective_pairing _))
    as [params [P [S [_ [_ H]]]]].
  exists params. split; [exact P|]. split; [exact S|].
  apply H; [|reflexivity]. intros E. rewrite E in P.
  apply Permutation_nil in P. discriminate P.
Defined.

Lemma rgb_color_defined_witness :
  rgb_to_rekordbox_color (NumInt (16777216 + 255)) = Some "0x0000FF" /\
  colour_attribute (Some (NumInt 255)) <> None /\
  colour_attribute (Some NumNaN) = None.
Proof.
  destruct rgb_color_defined as [H1 [_ [H3 H4]]].
  split; [|split].
  - rewrite <- (H3 (16777216 + 255)%Z). vm_compute. reflexivity.
  - apply (proj2 (H4 (Some (NumInt 255)))). exists 255%Z. reflexivity.
  - apply (proj2 (H1 NumNaN)). right. reflexivity.
Defined.

Lemma rgb_color_nearest_witness :
  rgb_to_rekordbox_color (NumInt 1193046) = Some "0x660099" /\
  exists before rb after,
    REKORDBOX_COLORS = before ++ (rb, "0x660099") :: after /\
    (forall e, In e before ->
       (color_distance 18 52 86 rb < color_distance 18 52 86 (fst e))%Z) /\
    (forall e, In e after ->
       (color_distance 18 52 86 rb <= color_distance 18 52 86 (fst e))%Z).
Proof.
  assert (H : rgb_to_rekordbox_color (NumInt 1193046) = Some "0x660099").
  { vm_compute. reflexivity. }
  split; [exact H|].
  exact (rgb_color_nearest 1193046 "0x660099" H).
Defined.

Lemma palette_color_kept_witness :
  In ((255, 165, 0)%Z, "0xFFA500") REKORDBOX_COLORS /\
  (red 16753920, green 16753920, blue 16753920) = (255, 165, 0)%Z /\
  rgb_to_rekordbox_color (NumInt 16753920) = Some "0xFFA500".
Proof.
  assert (Hin : In ((255, 165, 0)%Z, "0xFFA500") REKORDBOX_COLORS).
  { right. left. reflexivity. }
  assert (E : (red 16753920, green 16753920, blue 16753920) = (255, 165, 0)%Z).
  { vm_compute. reflexivity. }
  split; [exact Hin|]. split; [exact E|].
  exact (palette_color_kept 16753920 (255, 165, 0)%Z "0xFFA500" Hin E).
Defined.

Lemma is_non_empty_string_spec_witness :
  is_non_empty_string (VStr "  a ") = true /\
  is_non_empty_string (VStr "   ") = false.
Proof.
  split.
  - apply (proj2 (is_non_empty_string_spec (VStr "  a "))).
    exists "  a ". split; [reflexivity|]. exists "a"%char.
    split; [simpl; auto | discriminate].
  - apply not_true_is_false. intros H.
    apply (proj1 (is_non_empty_string_spec (VStr "   "))) in H.
    destruct H as [text [E [c [Hc Hn]]]]. injection E as <-.
    simpl in Hc. intuition congruence.
Defined.

Lemma rating_lookup_spec_witness :
  rating_lookup 5 = Some 255%Z /\ rating_lookup 6 = None.
Proof.
  split.
  - apply (proj2 (rating_lookup_spec 5 255)). lia.
  - destruct (rating_lookup 6) as [v|] eqn:E; [|reflexivity].
    apply (proj1 (rating_lookup_spec 6 v)) in E. lia.
Defined.

Lemma bar_start_cases_witness :
  inizio 0%Z (fun position : Z => position) 2 [(0%Z, 10%Z); (1%Z, 20%Z)]
  = Some 20%Z /\
  inizio 0%Z (fun position : Z => position) 2
         [(1%Z, 10%Z); (0%Z, 15%Z); (1%Z, 20%Z)] = None.
Proof.
  destruct (bar_start_cases Z Z 0%Z (fun position : Z => position) 2
              [(0%Z, 10%Z); (1%Z, 20%Z)]) as [_ [H _]].
  destruct (bar_start_cases Z Z 0%Z (fun position : Z => position) 2
              [(1%Z, 10%Z); (0%Z, 15%Z); (1%Z, 20%Z)]) as [_ [_ H']].
  split.
  - apply (H (1%Z, 20%Z)); [lia | reflexivity].
  - apply H'; [lia | simpl; lia].
Defined.
